(** * sqlcheck: the anti-pattern rules of [src/list.cpp]

    A shallow embedding of the rule functions of [list.cpp] (namespace
    [sqlcheck]) together with the parts of the C++ standard library they
    are written against: [std::string] ([find], [substr]) and
    [std::regex] in its default ECMAScript grammar ([regex_search],
    [regex_replace]).

    A [std::string] is a list of bytes ([cstring]); [std::string::npos]
    is [None].  A regular expression is compiled from its pattern text
    by [regex_compile] and run by a backtracking matcher [rmatch] that
    tries alternatives left to right and repetitions greedily, which is
    the order [regex_replace] depends on.  A function that constructs a
    [std::regex] returns an [outcome], because the constructor throws
    on an ill-formed pattern; a function that reports diagnostics
    returns the list of diagnostics it reports.

    The first half of the file holds the definitions, the second half
    the properties: facts about [find], the matcher against the
    relation [matches], the patterns of the rules, and then the rules
    themselves. *)

From Stdlib Require Import Ascii String List Arith Bool Lia.
Import ListNotations.

(* ================================================================= *)
(** ** Strings *)

Definition cstring := list ascii.

(** String literals of the source are written [str "..."]. *)
Definition str (s : string) : cstring := list_ascii_of_string s.

Definition chr_space : ascii := " "%char.
Definition chr_newline : ascii := "010"%char.
Definition chr_quote : ascii := "034"%char.

Module StdString.

(** [prefixb p s]: [p] occurs in [s] at position 0. *)
Fixpoint prefixb (p s : cstring) : bool :=
  match p, s with
  | [], _ => true
  | _ :: _, [] => false
  | a :: p', b :: s' => Ascii.eqb a b && prefixb p' s'
  end.

(** [s.find(pat)]: the lowest position at which [pat] occurs in [s];
    [None] is [std::string::npos]. *)
Fixpoint find (s pat : cstring) {struct s} : option nat :=
  if prefixb pat s then Some 0
  else match s with
       | [] => None
       | _ :: s' => option_map S (find s' pat)
       end.

(** [s.find(c)] for a single character. *)
Fixpoint find_char (s : cstring) (c : ascii) : option nat :=
  match s with
  | [] => None
  | a :: s' => if Ascii.eqb a c then Some 0 else option_map S (find_char s' c)
  end.

(** [s.substr(pos)].  The source calls it with [pos <= s.size()] only
    (lemma [find_bound] below), so [std::out_of_range] does not arise. *)
Definition substr_from (s : cstring) (pos : nat) : cstring := skipn pos s.

(** [s.substr(0, n)], where [n] may be [npos]. *)
Definition substr_to (s : cstring) (n : option nat) : cstring :=
  match n with
  | None => s
  | Some k => firstn k s
  end.

End StdString.

(* ================================================================= *)
(** ** Regular expressions: syntax *)

Module Regex.

(** Members of a bracket expression, and the class escapes. *)
Inductive class_item : Type :=
| CChar (a : ascii)
| CRange (lo hi : ascii)
| CSpace (neg : bool)     (* \s, \S *)
| CDigit (neg : bool)     (* \d, \D *)
| CWord (neg : bool).     (* \w, \W *)

(** What one pattern position accepts. *)
Inductive charset : Type :=
| One (a : ascii)
| AnyChar                                   (* . *)
| Bracket (neg : bool) (items : list class_item).

Inductive regex : Type :=
| Eps
| Sym (cs : charset)
| Bol                                       (* ^ *)
| Eol                                       (* $ *)
| Seq (r1 r2 : regex)
| Alt (r1 r2 : regex)
| Star (r : regex)
| Grp (n : nat) (r : regex).

(** [isspace] in the classic locale: HT, LF, VT, FF, CR and space. *)
Definition is_space (a : ascii) : bool :=
  let n := nat_of_ascii a in
  ((9 <=? n) && (n <=? 13)) || (n =? 32).

Definition is_digit (a : ascii) : bool :=
  let n := nat_of_ascii a in
  (48 <=? n) && (n <=? 57).

Definition is_word (a : ascii) : bool :=
  let n := nat_of_ascii a in
  is_digit a || ((65 <=? n) && (n <=? 90)) || ((97 <=? n) && (n <=? 122))
  || (n =? 95).

Definition item_mem (i : class_item) (a : ascii) : bool :=
  match i with
  | CChar c => Ascii.eqb a c
  | CRange lo hi =>
      (nat_of_ascii lo <=? nat_of_ascii a) && (nat_of_ascii a <=? nat_of_ascii hi)
  | CSpace neg => xorb neg (is_space a)
  | CDigit neg => xorb neg (is_digit a)
  | CWord neg => xorb neg (is_word a)
  end.

Definition charset_mem (cs : charset) (a : ascii) : bool :=
  match cs with
  | One c => Ascii.eqb a c
  | AnyChar => negb (Ascii.eqb a "010"%char || Ascii.eqb a "013"%char)
  | Bracket neg items => xorb neg (existsb (fun i => item_mem i a) items)
  end.

(* ================================================================= *)
(** ** Regular expressions: matching *)

(** Captured groups, most recent first. *)
Definition caps := list (nat * cstring).

Fixpoint group (n : nat) (c : caps) : cstring :=
  match c with
  | [] => []
  | (m, t) :: c' => if m =? n then t else group n c'
  end.

(** A match result: the input left after the match, and the groups. *)
Definition mres := option (cstring * caps).
Definition cont := cstring -> caps -> mres.

Definition accept : cont := fun s c => Some (s, c).

(** The greedy loop of a repetition whose body is matched by [m]: try
    one more iteration, and only if that fails go on with [k].  An
    iteration that consumes nothing is given up, as the ECMAScript
    RepeatMatcher does, so [fuel = length s] iterations are enough. *)
Fixpoint star_iter (m : cstring -> caps -> cont -> mres) (k : cont)
  (fuel : nat) (s : cstring) (c : caps) {struct fuel} : mres :=
  match fuel with
  | 0 => k s c
  | S fuel' =>
      match m s c (fun s' c' =>
                     if length s' <? length s
                     then star_iter m k fuel' s' c'
                     else None) with
      | Some x => Some x
      | None => k s c
      end
  end.

(** [rmatch n0 r s c k]: match [r] at the front of [s], then continue
    with [k]; a continuation that fails makes the matcher backtrack.
    [n0] is the length of the whole input, so that [s] is at the
    beginning of the input iff [length s = n0]. *)
Fixpoint rmatch (n0 : nat) (r : regex) (s : cstring) (c : caps) (k : cont)
  {struct r} : mres :=
  match r with
  | Eps => k s c
  | Sym cs =>
      match s with
      | a :: s' => if charset_mem cs a then k s' c else None
      | [] => None
      end
  | Bol => if length s =? n0 then k s c else None
  | Eol => match s with [] => k s c | _ :: _ => None end
  | Seq r1 r2 => rmatch n0 r1 s c (fun s' c' => rmatch n0 r2 s' c' k)
  | Alt r1 r2 =>
      match rmatch n0 r1 s c k with
      | Some x => Some x
      | None => rmatch n0 r2 s c k
      end
  | Star r1 => star_iter (rmatch n0 r1) k (length s) s c
  | Grp i r1 =>
      rmatch n0 r1 s c
        (fun s' c' => k s' ((i, firstn (length s - length s') s) :: c'))
  end.

(** The leftmost match at or after the front of [s]: the input at the
    start of the match, the input after it, and the groups. *)
Fixpoint search (n0 : nat) (r : regex) (s : cstring) {struct s}
  : option (cstring * cstring * caps) :=
  match rmatch n0 r s [] accept with
  | Some (e, c) => Some (s, e, c)
  | None =>
      match s with
      | [] => None
      | _ :: s' => search n0 r s'
      end
  end.

(** [std::regex_search(s, r)]: is there a match anywhere in [s]? *)
Definition regex_search (r : regex) (s : cstring) : bool :=
  match search (length s) r s with
  | Some _ => true
  | None => false
  end.

(* ================================================================= *)
(** ** Regular expressions: compiling a pattern

    The ECMAScript pattern grammar, by recursive descent:
    Disjunction ::= Alternative ( | Alternative )*,
    Alternative ::= Term*, Term ::= Assertion | Atom Quantifier?.
    Capturing groups are numbered from 1 in the order of their opening
    parenthesis.  [r+] is compiled to [r r*] and [r?] to [r|()].

    Constructs the rules of [list.cpp] never reach (bounded and lazy
    quantifiers, back-references, look-ahead, word boundaries, hex and
    control escapes, POSIX classes inside brackets) are reported as
    [Unsupported] instead of being given a meaning. *)

Inductive compiled : Type :=
| Compiled (r : regex)
| SyntaxError             (* the constructor throws std::regex_error *)
| Unsupported.            (* pattern outside the modelled grammar *)

Inductive presult : Type :=
| POk (r : regex) (rest : cstring) (g : nat)
| PError
| PUnsupported
| PFuel.                  (* recursion budget used up; see [parse_fuel] *)

Inductive bresult : Type :=
| BOk (items : list class_item) (rest : cstring)
| BError
| BUnsupported.

(** [ch a b]: the character [a] is [b]. *)
Definition ch (a b : ascii) : bool := Ascii.eqb a b.

(** The ECMAScript SyntaxCharacters. *)
Definition is_syntax_char (a : ascii) : bool :=
  ch a "^" || ch a "$" || ch a "\" || ch a "." || ch a "*" || ch a "+"
  || ch a "?" || ch a "(" || ch a ")" || ch a "[" || ch a "]" || ch a "{"
  || ch a "}" || ch a "|".

Definition is_quantifier_char (a : ascii) : bool :=
  ch a "*" || ch a "+" || ch a "?" || ch a "{".

Definition class_escape (a : ascii) : option class_item :=
  if ch a "s" then Some (CSpace false)
  else if ch a "S" then Some (CSpace true)
  else if ch a "d" then Some (CDigit false)
  else if ch a "D" then Some (CDigit true)
  else if ch a "w" then Some (CWord false)
  else if ch a "W" then Some (CWord true)
  else None.

Definition control_escape (a : ascii) : option ascii :=
  if ch a "t" then Some "009"%char
  else if ch a "n" then Some "010"%char
  else if ch a "v" then Some "011"%char
  else if ch a "f" then Some "012"%char
  else if ch a "r" then Some "013"%char
  else if ch a "0" then Some "000"%char
  else None.

(** The character an escape [\a] stands for, when it stands for one. *)
Definition char_escape (a : ascii) : option ascii :=
  match control_escape a with
  | Some c => Some c
  | None => if is_syntax_char a || ch a "/" || ch a "-" then Some a else None
  end.

(** The members of a bracket expression, up to its closing bracket.
    A class escape cannot begin a range ([[\d-x]] is an error).  The
    order of the two ends of a range is that of their character codes;
    for bytes from 128 on it depends on the signedness of [char], so
    such a range is left [BUnsupported]. *)
Fixpoint parse_items (p : cstring) (acc : list class_item) {struct p}
  : bresult :=
  match p with
  | [] => BError
  | a :: p1 =>
      if ch a "]" then BOk (rev acc) p1
      else if ch a "\" then
        match p1 with
        | [] => BError
        | e :: p2 =>
            match class_escape e with
            | Some i =>
                match p2 with
                | d :: d' :: _ =>
                    if ch d "-" && negb (ch d' "]") then BError
                    else parse_items p2 (i :: acc)
                | _ => parse_items p2 (i :: acc)
                end
            | None =>
                match char_escape e with
                | None => BUnsupported
                | Some c =>
                    match p2 with
                    | d :: d' :: _ =>
                        if ch d "-" && negb (ch d' "]") then BUnsupported
                        else parse_items p2 (CChar c :: acc)
                    | _ => parse_items p2 (CChar c :: acc)
                    end
                end
            end
        end
      else
        match p1 with
        | d :: hi :: p3 =>
            if ch a "[" && (ch d ":" || ch d "." || ch d "=") then BUnsupported
            else if ch d "-" && negb (ch hi "]") then
              if ch hi "\" || ch hi "[" then BUnsupported
              else if (128 <=? nat_of_ascii a) || (128 <=? nat_of_ascii hi)
              then BUnsupported
              else if nat_of_ascii a <=? nat_of_ascii hi
                   then parse_items p3 (CRange a hi :: acc)
                   else BError
            else parse_items p1 (CChar a :: acc)
        | _ => parse_items p1 (CChar a :: acc)
        end
  end.

(** A bracket expression after its opening bracket: whether it is
    negated, and its members. *)
Definition parse_bracket (p : cstring) : bool * bresult :=
  match p with
  | a :: p1 => if ch a "^" then (true, parse_items p1 [])
               else (false, parse_items p [])
  | [] => (false, BError)
  end.

(** At most one quantifier follows an atom. *)
Definition no_more (r : regex) (p : cstring) (g : nat) : presult :=
  match p with
  | q :: _ => if is_quantifier_char q then PUnsupported else POk r p g
  | [] => POk r p g
  end.

Definition quantify (r : regex) (p : cstring) (g : nat) : presult :=
  match p with
  | q :: p' =>
      if ch q "*" then no_more (Star r) p' g
      else if ch q "+" then no_more (Seq r (Star r)) p' g
      else if ch q "?" then no_more (Alt r Eps) p' g
      else if ch q "{" then PUnsupported
      else POk r p g
  | [] => POk r p g
  end.

(** [g] is the number of the next capturing group. *)
Fixpoint parse_disjunction (fuel : nat) (p : cstring) (g : nat)
  {struct fuel} : presult :=
  match fuel with
  | 0 => PFuel
  | S f =>
      match parse_alternative f p g with
      | POk r1 rest g1 =>
          match rest with
          | b :: p' =>
              if ch b "|" then
                match parse_disjunction f p' g1 with
                | POk r2 rest2 g2 => POk (Alt r1 r2) rest2 g2
                | e => e
                end
              else POk r1 rest g1
          | [] => POk r1 rest g1
          end
      | e => e
      end
  end
with parse_alternative (fuel : nat) (p : cstring) (g : nat)
  {struct fuel} : presult :=
  match fuel with
  | 0 => PFuel
  | S f =>
      match p with
      | [] => POk Eps p g
      | a :: _ =>
          if ch a "|" || ch a ")" then POk Eps p g
          else
            match parse_term f p g with
            | POk t rest g1 =>
                match parse_alternative f rest g1 with
                | POk r rest2 g2 => POk (Seq t r) rest2 g2
                | e => e
                end
            | e => e
            end
      end
  end
with parse_term (fuel : nat) (p : cstring) (g : nat)
  {struct fuel} : presult :=
  match fuel with
  | 0 => PFuel
  | S f =>
      match p with
      | [] => PError
      | a :: p1 =>
          if ch a "^" then POk Bol p1 g
          else if ch a "$" then POk Eol p1 g
          else if ch a "." then quantify (Sym AnyChar) p1 g
          else if is_quantifier_char a then PError
          else if ch a "]" || ch a "}" then PUnsupported
          else if ch a "\" then
            match p1 with
            | [] => PError
            | e :: p2 =>
                match class_escape e with
                | Some i => quantify (Sym (Bracket false [i])) p2 g
                | None =>
                    match char_escape e with
                    | Some c => quantify (Sym (One c)) p2 g
                    | None => PUnsupported
                    end
                end
            end
          else if ch a "[" then
            match parse_bracket p1 with
            | (neg, BOk items rest) => quantify (Sym (Bracket neg items)) rest g
            | (_, BError) => PError
            | (_, BUnsupported) => PUnsupported
            end
          else if ch a "(" then
            match p1 with
            | [] => PError
            | q :: p2 =>
                if ch q "?" then
                  match p2 with
                  | [] => PError
                  | m :: p3 =>
                      if ch m ":" then
                        match parse_disjunction f p3 g with
                        | POk r rest g1 =>
                            match rest with
                            | b :: rest' =>
                                if ch b ")" then quantify r rest' g1 else PError
                            | [] => PError
                            end
                        | e => e
                        end
                      else PUnsupported
                  end
                else
                  match parse_disjunction f p1 (S g) with
                  | POk r rest g1 =>
                      match rest with
                      | b :: rest' =>
                          if ch b ")" then quantify (Grp g r) rest' g1
                          else PError
                      | [] => PError
                      end
                  | e => e
                  end
            end
          else quantify (Sym (One a)) p1 g
      end
  end.

(** [std::regex r(p)]: the whole pattern must be consumed; what is left
    can only begin with an unmatched closing parenthesis. *)
Definition parse_fuel (p : cstring) : nat := 3 * length p + 3.

Definition regex_compile (p : cstring) : compiled :=
  match parse_disjunction (parse_fuel p) p 1 with
  | POk r [] _ => Compiled r
  | POk _ (_ :: _) _ => SyntaxError
  | PError => SyntaxError
  | PUnsupported => Unsupported
  | PFuel => Unsupported
  end.

(* ================================================================= *)
(** ** Regular expressions: [regex_replace] *)

(** The pieces of a replacement format string. *)
Inductive fmt_item : Type :=
| FLit (a : ascii)
| FGroup (n : nat)        (* $n, $nn *)
| FWhole                  (* $& *)
| FPrefix                 (* $` *)
| FSuffix.                (* $' *)

Definition digit_value (a : ascii) : nat := nat_of_ascii a - 48.

Fixpoint parse_format (f : cstring) {struct f} : list fmt_item :=
  match f with
  | [] => []
  | a :: f1 =>
      if ch a "$" then
        match f1 with
        | [] => [FLit a]
        | b :: f2 =>
            if ch b "$" then FLit b :: parse_format f2
            else if ch b "&" then FWhole :: parse_format f2
            else if ch b "`" then FPrefix :: parse_format f2
            else if ch b "'" then FSuffix :: parse_format f2
            else if is_digit b then
              match f2 with
              | d :: f3 =>
                  if is_digit d
                  then FGroup (10 * digit_value b + digit_value d) :: parse_format f3
                  else FGroup (digit_value b) :: parse_format f2
              | [] => [FGroup (digit_value b)]
              end
            else FLit a :: parse_format f1
        end
      else FLit a :: parse_format f1
  end.

(** [match_results::format]: group 0 is the whole match; a group that
    did not take part in the match is empty. *)
Fixpoint format (f : list fmt_item) (pre m suf : cstring) (c : caps)
  : cstring :=
  match f with
  | [] => []
  | FLit a :: f' => a :: format f' pre m suf c
  | FGroup 0 :: f' => m ++ format f' pre m suf c
  | FGroup n :: f' => group n c ++ format f' pre m suf c
  | FWhole :: f' => m ++ format f' pre m suf c
  | FPrefix :: f' => pre ++ format f' pre m suf c
  | FSuffix :: f' => suf ++ format f' pre m suf c
  end.

(** The text between two positions of the input, each given by the
    input that is left there. *)
Definition between (from to : cstring) : cstring :=
  firstn (length from - length to) from.

(** The [regex_iterator] loop of [regex_replace], from the input [cur]
    left after the previous match.  After an empty match the iterator
    first looks for a non-empty match at the same position, then moves
    on by one character. *)
Fixpoint replace_loop (fuel n0 : nat) (r : regex) (f : list fmt_item)
  (cur : cstring) {struct fuel} : cstring :=
  match fuel with
  | 0 => cur
  | S fuel' =>
      match search n0 r cur with
      | None => cur
      | Some (b, e, c) =>
          between cur b ++ format f (between cur b) (between b e) e c ++
          (if length e <? length b then replace_loop fuel' n0 r f e
           else
             match e with
             | [] => []
             | a :: e' =>
                 match rmatch n0 r e []
                         (fun s' c' =>
                            if length s' <? length e then Some (s', c')
                            else None) with
                 | Some (e2, c2) =>
                     format f [] (between e e2) e2 c2 ++
                     replace_loop fuel' n0 r f e2
                 | None => a :: replace_loop fuel' n0 r f e'
                 end
             end)
      end
  end.

(** [std::regex_replace(s, r, fmt)]. *)
Definition regex_replace (s : cstring) (r : regex) (fmt : cstring) : cstring :=
  replace_loop (S (length s)) (length s) r (parse_format fmt) s.

End Regex.

(* ================================================================= *)
(** ** The rationale texts of the rules

    The message literals of [list.cpp], byte for byte (UTF-8). *)

Module Messages.

Definition SelectStar1 : cstring :=
  str "● Inefficiency in moving data to the consumer:
When you SELECT *, you're often retrieving more columns from the database than
your application really needs to function. This causes more data to move from
the database server to the client, slowing access and increasing load on your
machines, as well as taking more time to travel across the network. This is
especially true when someone adds new columns to underlying tables that didn't
exist and weren't needed when the original consumers coded their data access.
".

Definition SelectStar2 : cstring :=
  str "● Indexing issues:
Consider a scenario where you want to tune a query to a high level of performance.
If you were to use *, and it returned more columns than you actually needed,
the server would often have to perform more expensive methods to retrieve your
data than it otherwise might. For example, you wouldn't be able to create an index
which simply covered the columns in your SELECT list, and even if you did
(including all columns [shudder]), the next guy who came around and added a column
to the underlying table would cause the optimizer to ignore your optimized covering
index, and you'd likely find that the performance of your query would drop
substantially for no readily apparent reason.
".

Definition SelectStar3 : cstring :=
  str "● Binding Problems:
When you SELECT *, it's possible to retrieve two columns of the same name from two
different tables. This can often crash your data consumer. Imagine a query that joins
two tables, both of which contain a column called " ++
  [chr_quote] ++
  str "ID" ++
  [chr_quote] ++
  str ". How would a consumer know
which was which? SELECT * can also confuse views (at least in some versions SQL Server)
when underlying table structures change -- the view is not rebuilt, and the data which
comes back can be nonsense. And the worst part of it is that you can take care to name
your columns whatever you want, but the next guy who comes along might have no way of
knowing that he has to worry about adding a column which will collide with your
already-developed names.
".

Definition MultiValuedAttribute : cstring :=
  str "● Store each value in its own column and row:
Storing a list of IDs as a VARCHAR/TEXT column can cause performance and data integrity
problems. Querying against such a column would require using pattern-matching
expressions. It is awkward and costly to join a comma-separated list to matching rows.
This will make it harder to validate IDs. Think about what is the greatest number of
entries this list must support? Instead of using a multi-valued attribute,
consider storing it in a separate table, so that each individual value of that attribute
occupies a separate row. Such an intersection table implements a many-to-many relationship
between the two referenced tables. This will greatly simplify querying and validating
the IDs.
".

Definition RecursiveDependency : cstring :=
  str "● Avoid recursive relationships:
It’s common for data to have recursive relationships. Data may be organized in a
treelike or hierarchical way. However, creating a foreign key constraint to enforce
the relationship between two columns in the same table lends to awkward querying.
Each level of the tree corresponds to another join. You will need to issue recursive
queries to get all descendants or all ancestors of a node.
A solution is to construct an additional closure table. It involves storing all paths
through the tree, not just those with a direct parent-child relationship.
You might want to compare different hierarchical data designs -- closure table,
path enumeration, nested sets -- and pick one based on your application's needs.
".

Definition PrimaryKeyExists : cstring :=
  str "● Consider adding a primary key:
A primary key constraint is important when you need to do the following:
prevent a table from containing duplicate rows,
reference individual rows in queries, and
support foreign key references
If you don’t use primary key constraints, you create a chore for yourself:
checking for duplicate rows. More often than not, you will need to define
a primary key for every table. Use compound keys when they are appropriate.
".

Definition GenericPrimaryKey : cstring :=
  str "● Skip using a generic primary key (id):
Adding an id column to every table causes several effects that make its
use seem arbitrary. You might end up creating a redundant key or allow
duplicate rows if you add this column in a compound key.
The name id is so generic that it holds no meaning. This is especially
important when you join two tables and they have the same primary
key column name.
".

Definition ForeignKeyExists : cstring :=
  str "● Consider adding a foreign key:
Are you leaving out the application constraints? Even though it seems at
first that skipping foreign key constraints makes your database design
simpler, more flexible, or speedier, you pay for this in other ways.
It becomes your responsibility to write code to ensure referential integrity
manually. Use foreign key constraints to enforce referential integrity.
Foreign keys have another feature you can’t mimic using application code:
cascading updates to multiple tables. This feature allows you to
update or delete the parent row and lets the database takes care of any child
rows that reference it. The way you declare the ON UPDATE or ON DELETE clauses
in the foreign key constraint allow you to control the result of a cascading
operation. Make your database mistake-proof with constraints.
".

End Messages.

(* ================================================================= *)
(** ** Outcomes of the source functions

    Constructing a [std::regex] from text can throw [std::regex_error];
    no function of [list.cpp] catches it, so it reaches the caller. *)

Inductive outcome (A : Type) : Type :=
| Returned (a : A)
| RegexError              (* std::regex_error leaves the function *)
| OutOfModel.             (* the pattern is outside the modelled grammar *)

Arguments Returned {A} a.
Arguments RegexError {A}.
Arguments OutOfModel {A}.

Definition bind {A B : Type} (m : outcome A) (f : A -> outcome B) : outcome B :=
  match m with
  | Returned a => f a
  | RegexError => RegexError
  | OutOfModel => OutOfModel
  end.

Notation "x <- m ;; k" := (bind m (fun x => k))
  (at level 61, m at next level, right associativity).

(** [std::regex pattern(text)]. *)
Definition std_regex (text : cstring) : outcome Regex.regex :=
  match Regex.regex_compile text with
  | Regex.Compiled r => Returned r
  | Regex.SyntaxError => RegexError
  | Regex.Unsupported => OutOfModel
  end.

(* ================================================================= *)
(** ** Declarations the rules are written against *)

(** Modelled from the spec: the severity levels are declared in a header
    that is not part of src/; section 3 gives the ordered enumeration
    INFO, WARN, ERROR.  The rules use [LOG_LEVEL_WARN] and
    [LOG_LEVEL_ERROR]. *)
Inductive LogLevel : Type :=
| LOG_LEVEL_INFO
| LOG_LEVEL_WARN
| LOG_LEVEL_ERROR.

(** Modelled from the spec: [PatternType] is declared in a header that
    is not part of src/; section 3 gives the statement classes QUERY and
    CREATION. *)
Inductive PatternType : Type :=
| PATTERN_TYPE_QUERY
| PATTERN_TYPE_CREATION.

(** Modelled from the spec: [Configuration] is declared in a header that
    is not part of src/; section 3 says it holds the enabled/disabled
    rule sets and global options such as verbosity, and that rules only
    read it. *)
Record Configuration : Type := {
  disabled_rules : list cstring;
  verbose : bool
}.

(** Modelled from the spec: a diagnostic carries the rule's title,
    severity, category and rationale, and the offending statement
    (section 3). *)
Record Diagnostic : Type := {
  diag_title : cstring;
  diag_level : LogLevel;
  diag_type : PatternType;
  diag_message : cstring;
  diag_statement : cstring
}.

(** Modelled from the spec: [CheckPattern] is defined in checker.cpp,
    which is not part of src/.  Section 4.2: the pattern is searched
    anywhere in the statement; under match-means-violation
    ([exists_ = true]) a violation is "found", under
    absence-means-violation ([exists_ = false]) it is "not found".
    Section 4.3: on violation one diagnostic with the rule's title,
    severity, category and message is emitted.  The result is the list
    of diagnostics the call emits. *)
Definition CheckPattern (state : Configuration) (sql_statement : cstring)
  (pattern : Regex.regex) (pattern_level : LogLevel)
  (pattern_type : PatternType) (title message : cstring) (exists_ : bool)
  : list Diagnostic :=
  let found := Regex.regex_search pattern sql_statement in
  if Bool.eqb found exists_
  then [ {| diag_title := title;
            diag_level := pattern_level;
            diag_type := pattern_type;
            diag_message := message;
            diag_statement := sql_statement |} ]
  else [].

(* ================================================================= *)
(** ** [list.cpp] *)

Import StdString.

Definition GetTableName (sql_statement : cstring) : outcome cstring :=
  let table_template := str "create table" in
  match find sql_statement table_template with
  | None => Returned []
  | Some found =>
      (* Locate table name *)
      let rest := substr_from sql_statement (found + length table_template) in
      (* Strip space at beginning *)
      strip <- std_regex (str "^ +| +$|( ) +") ;;
      let rest := Regex.regex_replace rest strip (str "$1") in
      let table_name := substr_to rest (find_char rest chr_space) in
      Returned table_name
  end.

Definition IsCreateStatement (sql_statement : cstring) : bool :=
  let table_template := str "create table" in
  match find sql_statement table_template with
  | None => false
  | Some _ => true
  end.

Definition CheckSelectStar (state : Configuration) (sql_statement : cstring)
  : outcome (list Diagnostic) :=
  pattern <- std_regex (str "(select\s+\*)") ;;
  let title := str "SELECT *" in
  let pattern_type := PATTERN_TYPE_QUERY in
  let message1 := Messages.SelectStar1 in
  let message2 := Messages.SelectStar2 in
  let message3 := Messages.SelectStar3 in
  let message :=
    message1 ++ [chr_newline] ++ message2 ++ [chr_newline] ++ message3 in
  Returned (CheckPattern state sql_statement pattern LOG_LEVEL_ERROR
              pattern_type title message true).

Definition CheckMultiValuedAttribute (state : Configuration)
  (sql_statement : cstring) : outcome (list Diagnostic) :=
  pattern <- std_regex (str "(id\s+varchar)|(id\s+text)|(id\s+regexp)") ;;
  let title := str "Multi-Valued Attribute" in
  let pattern_type := PATTERN_TYPE_CREATION in
  let message := Messages.MultiValuedAttribute in
  Returned (CheckPattern state sql_statement pattern LOG_LEVEL_ERROR
              pattern_type title message true).

Definition CheckRecursiveDependency (state : Configuration)
  (sql_statement : cstring) : outcome (list Diagnostic) :=
  table_name <- GetTableName sql_statement ;;
  match table_name with
  | [] => Returned []
  | _ :: _ =>
      pattern <- std_regex (str "(references\s+" ++ table_name ++ str ")") ;;
      let title := str "Recursive Dependency" in
      let pattern_type := PATTERN_TYPE_CREATION in
      let message := Messages.RecursiveDependency in
      Returned (CheckPattern state sql_statement pattern LOG_LEVEL_ERROR
                  pattern_type title message true)
  end.

Definition CheckPrimaryKeyExists (state : Configuration)
  (sql_statement : cstring) : outcome (list Diagnostic) :=
  let create_statement := IsCreateStatement sql_statement in
  if Bool.eqb create_statement false then Returned []
  else
    pattern <- std_regex (str "(primary key)") ;;
    let title := str "Primary Key Exists" in
    let pattern_type := PATTERN_TYPE_CREATION in
    let message := Messages.PrimaryKeyExists in
    Returned (CheckPattern state sql_statement pattern LOG_LEVEL_WARN
                pattern_type title message false).

Definition CheckGenericPrimaryKey (state : Configuration)
  (sql_statement : cstring) : outcome (list Diagnostic) :=
  let create_statement := IsCreateStatement sql_statement in
  if Bool.eqb create_statement false then Returned []
  else
    pattern <- std_regex (str "(\s+[\(]?id\s+)|(,id\s+)|(\s+id\s+serial)") ;;
    let title := str "Generic Primary Key" in
    let pattern_type := PATTERN_TYPE_CREATION in
    let message := Messages.GenericPrimaryKey in
    Returned (CheckPattern state sql_statement pattern LOG_LEVEL_ERROR
                pattern_type title message true).

Definition CheckForeignKeyExists (state : Configuration)
  (sql_statement : cstring) : outcome (list Diagnostic) :=
  let create_statement := IsCreateStatement sql_statement in
  if Bool.eqb create_statement false then Returned []
  else
    pattern <- std_regex (str "(foreign key)") ;;
    let title := str "Foreign Key Exists" in
    let pattern_type := PATTERN_TYPE_CREATION in
    let message := Messages.ForeignKeyExists in
    Returned (CheckPattern state sql_statement pattern LOG_LEVEL_WARN
                pattern_type title message false).

(* ================================================================= *)
(** ** The rule engine *)

Fixpoint cstring_eqb (s t : cstring) : bool :=
  match s, t with
  | [], [] => true
  | a :: s', b :: t' => Ascii.eqb a b && cstring_eqb s' t'
  | _, _ => false
  end.

(** Modelled from the spec: a registered rule, keyed by its title
    (section 4.3); the detection procedure is the rule's function of
    [list.cpp]. *)
Record Rule : Type := {
  rule_title : cstring;
  rule_check : Configuration -> cstring -> outcome (list Diagnostic)
}.

(** Modelled from the spec: the registry is assembled outside src/;
    section 4.3 lists the baseline rules in registration order, which is
    also the order in which [list.cpp] defines them. *)
Definition registry : list Rule :=
  [ {| rule_title := str "SELECT *"; rule_check := CheckSelectStar |};
    {| rule_title := str "Multi-Valued Attribute";
       rule_check := CheckMultiValuedAttribute |};
    {| rule_title := str "Recursive Dependency";
       rule_check := CheckRecursiveDependency |};
    {| rule_title := str "Primary Key Exists";
       rule_check := CheckPrimaryKeyExists |};
    {| rule_title := str "Generic Primary Key";
       rule_check := CheckGenericPrimaryKey |};
    {| rule_title := str "Foreign Key Exists";
       rule_check := CheckForeignKeyExists |} ].

(** Modelled from the spec: a rule is enabled unless the configuration
    lists its title among the disabled rules (sections 3 and 4.3). *)
Definition rule_enabled (state : Configuration) (title : cstring) : bool :=
  negb (existsb (cstring_eqb title) (disabled_rules state)).

(** Modelled from the spec: section 4.3, [evaluate] iterates the
    registry in registration order, runs each enabled rule and appends
    what it emits. *)
Fixpoint run_rules (rules : list Rule) (state : Configuration)
  (sql_statement : cstring) : outcome (list Diagnostic) :=
  match rules with
  | [] => Returned []
  | r :: rules' =>
      if rule_enabled state (rule_title r) then
        ds <- rule_check r state sql_statement ;;
        ds' <- run_rules rules' state sql_statement ;;
        Returned (ds ++ ds')
      else run_rules rules' state sql_statement
  end.

(** Modelled from the spec: [evaluate(config, statement)], the one
    operation of section 6, over the baseline registry. *)
Definition evaluate (state : Configuration) (sql_statement : cstring)
  : outcome (list Diagnostic) :=
  run_rules registry state sql_statement.

(** The configuration that disables nothing. *)
Definition all_enabled : Configuration :=
  {| disabled_rules := []; verbose := false |}.

(* ================================================================= *)
(** ** Notions the properties are stated with *)

(** [pat] occurs somewhere in [s]. *)
Definition Substring (pat s : cstring) : Prop :=
  exists pre post, s = pre ++ pat ++ post.

Definition Whitespace (w : cstring) : Prop :=
  Forall (fun a => Regex.is_space a = true) w.

(** [s] contains [x], then one or more whitespace characters, then [y]. *)
Definition FollowedBy (x y s : cstring) : Prop :=
  exists pre w post,
    s = pre ++ x ++ w ++ y ++ post /\ w <> [] /\ Whitespace w.

(** No character of [w] is an ECMAScript syntax character. *)
Definition Plain (w : cstring) : Prop :=
  Forall (fun a => Regex.is_syntax_char a = false) w.

Definition has_title (title : cstring) (d : Diagnostic) : bool :=
  cstring_eqb (diag_title d) title.

(** The diagnostics of a result that carry a given title. *)
Definition titled (title : cstring) (ds : list Diagnostic) : list Diagnostic :=
  filter (has_title title) ds.

(** What a regular expression matches, without the order in which the
    matcher tries things: [matches n0 r s s'] says that [r] can match
    at the front of [s] and leave [s']. *)
Inductive matches (n0 : nat) : Regex.regex -> cstring -> cstring -> Prop :=
| M_Eps s : matches n0 Regex.Eps s s
| M_Sym cs a s :
    Regex.charset_mem cs a = true -> matches n0 (Regex.Sym cs) (a :: s) s
| M_Bol s : length s = n0 -> matches n0 Regex.Bol s s
| M_Eol : matches n0 Regex.Eol [] []
| M_Seq r1 r2 s s1 s2 :
    matches n0 r1 s s1 -> matches n0 r2 s1 s2 ->
    matches n0 (Regex.Seq r1 r2) s s2
| M_AltL r1 r2 s s' :
    matches n0 r1 s s' -> matches n0 (Regex.Alt r1 r2) s s'
| M_AltR r1 r2 s s' :
    matches n0 r2 s s' -> matches n0 (Regex.Alt r1 r2) s s'
| M_Star0 r s : matches n0 (Regex.Star r) s s
| M_StarS r s s1 s2 :
    matches n0 r s s1 -> length s1 < length s ->
    matches n0 (Regex.Star r) s1 s2 ->
    matches n0 (Regex.Star r) s s2
| M_Grp i r s s' : matches n0 r s s' -> matches n0 (Regex.Grp i r) s s'.

(** The expression of a literal text [w] followed by [r]. *)
Fixpoint lits (w : cstring) (r : Regex.regex) : Regex.regex :=
  match w with
  | [] => r
  | a :: w' => Regex.Seq (Regex.Sym (Regex.One a)) (lits w' r)
  end.

(** [\s] and [\s+] as compiled. *)
Definition WS : Regex.regex :=
  Regex.Sym (Regex.Bracket false [Regex.CSpace false]).
Definition WSplus : Regex.regex := Regex.Seq WS (Regex.Star WS).

(** The expression of [x], whitespace, [y], as the compiler builds it
    for a pattern such as [id\s+varchar]. *)
Definition phrase (x y : cstring) : Regex.regex :=
  lits x (Regex.Seq WSplus (lits y Regex.Eps)).

(** The statements the Multi-Valued Attribute rule is about. *)
Definition MultiValued (s : cstring) : Prop :=
  FollowedBy (str "id") (str "varchar") s \/
  FollowedBy (str "id") (str "text") s \/
  FollowedBy (str "id") (str "regexp") s.

(** [p] does not begin with a quantifier. *)
Definition no_quant (p : cstring) : Prop :=
  match p with
  | q :: _ => Regex.is_quantifier_char q = false
  | [] => True
  end.

(** [w] is made of letters, digits and underscores. *)
Definition Identifier (w : cstring) : Prop :=
  Forall (fun a => Regex.is_word a = true) w.

(** [s] begins with [p]. *)
Definition BeginsWith (p s : cstring) : Prop := exists t, s = p ++ t.

(** The creation statement of table Category whose references clause
    names the table [T]. *)
Definition category_statement (T : cstring) : cstring :=
  str "create table Category (id int, parent_id int, references " ++ T ++
  str ")".

(** The pattern of [GetTableName], [^ +| +$|( ) +], as compiled. *)
Definition SP : Regex.regex := Regex.Sym (Regex.One chr_space).
Definition SPplus : Regex.regex := Regex.Seq SP (Regex.Star SP).
Definition strip_regex : Regex.regex :=
  Regex.Alt (Regex.Seq Regex.Bol (Regex.Seq SPplus Regex.Eps))
    (Regex.Alt (Regex.Seq SPplus (Regex.Seq Regex.Eol Regex.Eps))
       (Regex.Seq (Regex.Grp 1 (Regex.Seq SP Regex.Eps))
          (Regex.Seq SPplus Regex.Eps))).

Definition spaces (n : nat) : cstring := repeat chr_space n.

(** [t] begins with a space. *)
Definition head_sp (t : cstring) : bool :=
  match t with
  | a :: _ => Ascii.eqb a chr_space
  | [] => false
  end.

(** The format [$1] of [GetTableName], parsed. *)
Definition fmt1 : list Regex.fmt_item := [Regex.FGroup 1].

(** The table name as section 4.1 of the specification words it, for a
    notion [ws] of whitespace character: the text after the first
    "create table", trimmed at both ends, interior runs of whitespace
    collapsed to one space, cut at the first whitespace. *)
Module Spec.

Fixpoint after_first (kw s : cstring) {struct s} : option cstring :=
  if StdString.prefixb kw s then Some (skipn (length kw) s)
  else match s with
       | [] => None
       | _ :: s' => after_first kw s'
       end.

Section Whitespace.

Variable ws : ascii -> bool.

Fixpoint trim_left (s : cstring) : cstring :=
  match s with
  | [] => []
  | a :: s' => if ws a then trim_left s' else s
  end.

Fixpoint trim_right (s : cstring) : cstring :=
  match s with
  | [] => []
  | a :: s' =>
      match trim_right s' with
      | [] => if ws a then [] else [a]
      | t => a :: t
      end
  end.

(** Of a run of whitespace only its last character is kept, as a space. *)
Fixpoint collapse (s : cstring) : cstring :=
  match s with
  | [] => []
  | a :: s' =>
      if ws a then
        match s' with
        | [] => [chr_space]
        | b :: _ => if ws b then collapse s' else chr_space :: collapse s'
        end
      else a :: collapse s'
  end.

Fixpoint first_token (s : cstring) : cstring :=
  match s with
  | [] => []
  | a :: s' => if ws a then [] else a :: first_token s'
  end.

Definition extractTableName (stmt : cstring) : cstring :=
  match after_first (str "create table") stmt with
  | None => []
  | Some rest => first_token (collapse (trim_right (trim_left rest)))
  end.

End Whitespace.

(** The two readings of "whitespace". *)
Definition any_whitespace : ascii -> bool := Regex.is_space.
Definition space_only : ascii -> bool := fun a => Ascii.eqb a chr_space.

End Spec.

(** Trailing spaces removed and runs of spaces collapsed. *)
Definition tail_norm (s : cstring) : cstring :=
  Spec.collapse Spec.space_only (Spec.trim_right Spec.space_only s).

(** [w] holds no space character. *)
Definition NoSpace (w : cstring) : Prop :=
  Forall (fun a => Ascii.eqb a chr_space = false) w.

(** Lower-case letters, and the texts without any. *)
Definition is_lower (a : ascii) : bool :=
  let n := nat_of_ascii a in (97 <=? n) && (n <=? 122).

Definition NoLower (s : cstring) : Prop :=
  Forall (fun a => is_lower a = false) s.

(** A column named id: "id" between whitespace, possibly after an
    opening parenthesis that itself follows whitespace, or after a
    comma. *)
Definition GenericId (s : cstring) : Prop :=
  (exists pre a b post,
     Regex.is_space a = true /\ Regex.is_space b = true /\
     s = pre ++ a :: str "id" ++ b :: post) \/
  (exists pre a b post,
     Regex.is_space a = true /\ Regex.is_space b = true /\
     s = pre ++ a :: str "(id" ++ b :: post) \/
  (exists pre b post,
     Regex.is_space b = true /\ s = pre ++ str ",id" ++ b :: post).

(** The pattern of [CheckGenericPrimaryKey], as compiled. *)
Definition OptParen : Regex.regex :=
  Regex.Alt (Regex.Sym (Regex.Bracket false [Regex.CChar "("%char]))
    Regex.Eps.

Definition GenericPrimaryKey_regex : Regex.regex :=
  Regex.Alt
    (Regex.Seq
       (Regex.Grp 1
          (Regex.Seq WSplus
             (Regex.Seq OptParen
                (lits (str "id") (Regex.Seq WSplus Regex.Eps)))))
       Regex.Eps)
    (Regex.Alt
       (Regex.Seq
          (Regex.Grp 2 (lits (str ",id") (Regex.Seq WSplus Regex.Eps)))
          Regex.Eps)
       (Regex.Seq
          (Regex.Grp 3 (Regex.Seq WSplus (phrase (str "id") (str "serial"))))
          Regex.Eps)).

(* ================================================================= *)
(** * Properties *)

(* ================================================================= *)
(** ** [std::string::find] *)

Module StringFacts.
Import StdString.

Lemma prefixb_app (p s : cstring) : prefixb p (p ++ s) = true.
Proof.
  induction p as [|a p IH]; simpl; [reflexivity|].
  now rewrite Ascii.eqb_refl.
Qed.

Lemma prefixb_split (p s : cstring) :
  prefixb p s = true -> s = p ++ skipn (length p) s.
Proof.
  revert s; induction p as [|a p IH]; intros [|b s]; simpl; try easy.
  intros H. apply andb_prop in H as [Hab Hp].
  apply Ascii.eqb_eq in Hab. subst b. f_equal. now apply IH.
Qed.

Lemma find_prefix (s pat : cstring) :
  prefixb pat s = true -> find s pat = Some 0.
Proof. intros H. destruct s; simpl; now rewrite H. Qed.

Lemma find_some (s pat : cstring) (i : nat) :
  find s pat = Some i ->
  s = firstn i s ++ pat ++ skipn (i + length pat) s /\ i + length pat <= length s.
Proof.
  revert i; induction s as [|a s IH]; intros i; simpl.
  - destruct (prefixb pat []) eqn:E; [|discriminate].
    intros [= <-]. destruct pat; [now simpl | discriminate].
  - destruct (prefixb pat (a :: s)) eqn:E.
    + intros [= <-]. apply prefixb_split in E. split; [exact E|].
      apply (f_equal (@length ascii)) in E. rewrite length_app in E.
      simpl in *. lia.
    + destruct (find s pat) as [j|] eqn:F; simpl; [|discriminate].
      intros [= <-]. destruct (IH j eq_refl) as [H1 H2]. simpl.
      split; [now f_equal | lia].
Qed.

(** [find] answers [npos] exactly when the pattern does not occur. *)
Lemma find_none (s pat : cstring) :
  find s pat = None <-> ~ Substring pat s.
Proof.
  split.
  - intros H (pre & post & ->). revert H.
    induction pre as [|a pre IH]; simpl.
    + rewrite (find_prefix _ _ (prefixb_app pat post)). discriminate.
    + destruct (prefixb pat (a :: pre ++ pat ++ post)); [discriminate|].
      destruct (find (pre ++ pat ++ post) pat); [discriminate|].
      intros _. now apply IH.
  - intros H. destruct (find s pat) as [i|] eqn:F; [|reflexivity].
    exfalso. apply H. apply find_some in F as [F _].
    now exists (firstn i s), (skipn (i + length pat) s).
Qed.

Lemma find_char_firstn (s : cstring) :
  substr_to s (find_char s chr_space) = Spec.first_token Spec.space_only s.
Proof.
  induction s as [|a s IH]; simpl; [reflexivity|].
  unfold Spec.space_only at 1.
  destruct (Ascii.eqb a chr_space); simpl; [reflexivity|].
  destruct (find_char s chr_space); simpl in *; now f_equal.
Qed.

Lemma after_first_find (kw s : cstring) :
  Spec.after_first kw s =
  option_map (fun i => substr_from s (i + length kw)) (find s kw).
Proof.
  induction s as [|a s IH]; simpl.
  - destruct (prefixb kw []); reflexivity.
  - destruct (prefixb kw (a :: s)); [reflexivity|].
    rewrite IH. destruct (find s kw); reflexivity.
Qed.

End StringFacts.

(* ================================================================= *)
(** ** The matcher against [matches] *)

Module RegexFacts.
Import Regex.

(** The matcher looks at its continuation only through its results. *)
Lemma rmatch_ext (n0 : nat) (r : regex) :
  forall s c (k1 k2 : cont),
    (forall s' c', k1 s' c' = k2 s' c') ->
    rmatch n0 r s c k1 = rmatch n0 r s c k2.
Proof.
  induction r as [|cs| | |r1 IH1 r2 IH2|r1 IH1 r2 IH2|r1 IH1|i r1 IH1];
    intros s c k1 k2 H; simpl.
  - apply H.
  - destruct s as [|a s]; [reflexivity|].
    destruct (charset_mem cs a); [apply H|reflexivity].
  - destruct (length s =? n0); [apply H|reflexivity].
  - destruct s; [apply H|reflexivity].
  - apply IH1. intros s' c'. now apply IH2.
  - rewrite (IH1 s c k1 k2 H), (IH2 s c k1 k2 H). reflexivity.
  - generalize (length s) as fuel. intros fuel. revert s c.
    induction fuel as [|fuel IHf]; intros s c; simpl; [apply H|].
    rewrite H.
    erewrite IH1; [reflexivity|].
    intros s' c'. simpl. destruct (length s' <? length s); [apply IHf|reflexivity].
  - apply IH1. intros s' c'. apply H.
Qed.

(** Soundness: a result of the matcher comes from a match of [r]
    followed by a success of the continuation. *)
Lemma rmatch_sound (n0 : nat) (r : regex) :
  forall s c (k : cont) x,
    rmatch n0 r s c k = Some x ->
    exists s' c', matches n0 r s s' /\ k s' c' = Some x.
Proof.
  induction r as [|cs| | |r1 IH1 r2 IH2|r1 IH1 r2 IH2|r1 IH1|i r1 IH1];
    intros s c k x; simpl.
  - intros H. exists s, c. split; [constructor|exact H].
  - destruct s as [|a s]; [discriminate|].
    destruct (charset_mem cs a) eqn:E; [|discriminate].
    intros H. exists s, c. split; [now constructor|exact H].
  - destruct (length s =? n0) eqn:E; [|discriminate].
    apply Nat.eqb_eq in E.
    intros H. exists s, c. split; [now constructor|exact H].
  - destruct s; [|discriminate].
    intros H. exists [], c. split; [constructor|exact H].
  - intros H. apply IH1 in H as (s1 & c1 & M1 & H).
    apply IH2 in H as (s2 & c2 & M2 & H).
    exists s2, c2. split; [econstructor; eassumption|exact H].
  - destruct (rmatch n0 r1 s c k) eqn:E.
    + intros [= <-]. apply IH1 in E as (s1 & c1 & M1 & H).
      exists s1, c1. split; [now apply M_AltL|exact H].
    + intros H. apply IH2 in H as (s1 & c1 & M1 & H).
      exists s1, c1. split; [now apply M_AltR|exact H].
  - generalize (length s) as fuel. intros fuel. revert s c.
    induction fuel as [|fuel IHf]; intros s c; simpl.
    + intros H. exists s, c. split; [constructor|exact H].
    + destruct (rmatch n0 r1 s c _) eqn:E.
      * intros [= <-]. apply IH1 in E as (s1 & c1 & M1 & H).
        destruct (length s1 <? length s) eqn:L; [|discriminate].
        apply Nat.ltb_lt in L.
        apply IHf in H as (s2 & c2 & M2 & H).
        exists s2, c2. split; [eapply M_StarS; eassumption|exact H].
      * intros H. exists s, c. split; [constructor|exact H].
  - intros H. apply IH1 in H as (s1 & c1 & M1 & H).
    eexists _, _. split; [constructor; eassumption|exact H].
Qed.

(** More fuel than the length of the input changes nothing. *)
Lemma star_iter_fuel (n0 : nat) (r : regex) (k : cont) :
  forall f1 f2 s c,
    length s <= f1 -> length s <= f2 ->
    star_iter (rmatch n0 r) k f1 s c = star_iter (rmatch n0 r) k f2 s c.
Proof.
  assert (Z : forall f s c, length s = 0 ->
            star_iter (rmatch n0 r) k f s c = k s c).
  { intros [|f] s c L; simpl; [reflexivity|].
    destruct (rmatch n0 r s c _) eqn:E; [|reflexivity].
    apply rmatch_sound in E as (s' & c' & _ & E).
    rewrite L in E. simpl in E. discriminate. }
  induction f1 as [|f1 IH]; intros f2 s c L1 L2.
  - rewrite !Z by lia. reflexivity.
  - destruct f2 as [|f2]; [rewrite !Z by lia; reflexivity|].
    simpl. erewrite rmatch_ext; [reflexivity|].
    intros s' c'. simpl.
    destruct (length s' <? length s) eqn:L; [|reflexivity].
    apply Nat.ltb_lt in L. apply IH; lia.
Qed.

(** Completeness: if [r] can match and the continuation accepts what
    the match leaves, the matcher finds some result. *)
Lemma rmatch_complete (n0 : nat) (r : regex) (s s' : cstring) :
  matches n0 r s s' ->
  forall c (k : cont),
    (forall c', k s' c' <> None) -> rmatch n0 r s c k <> None.
Proof.
  induction 1 as [s|cs a s E|s E| |r1 r2 s s1 s2 _ IH1 _ IH2
                  |r1 r2 s s' _ IH|r1 r2 s s' _ IH|r s
                  |r s s1 s2 _ IH1 L _ IH2|i r s s' _ IH];
    intros c k K; simpl.
  - apply K.
  - rewrite E. apply K.
  - apply Nat.eqb_eq in E. rewrite E. apply K.
  - apply K.
  - apply IH1. intros c'. now apply IH2.
  - specialize (IH c k K). destruct (rmatch n0 r1 s c k); congruence.
  - destruct (rmatch n0 r1 s c k); [discriminate|]. now apply IH.
  - destruct (length s); simpl; [apply K|].
    destruct (rmatch n0 r s c _); [discriminate|apply K].
  - destruct (length s) as [|f] eqn:F; [lia|]. simpl.
    match goal with
    | |- match ?m with _ => _ end <> None =>
        assert (M : m <> None); [|destruct m; congruence]
    end.
    apply IH1. intros c'.
    assert (L' : (length s1 <? length s) = true)
      by (apply Nat.ltb_lt; lia).
    rewrite L'.
    rewrite (star_iter_fuel n0 r k f (length s1) s1 c') by lia.
    apply (IH2 c' k K).
  - apply IH. intros c'. apply K.
Qed.

(** A match leaves a suffix of its input. *)
Lemma matches_suffix (n0 : nat) (r : regex) (s s' : cstring) :
  matches n0 r s s' -> exists m, s = m ++ s'.
Proof.
  induction 1 as [s|cs a s E|s E| |r1 r2 s s1 s2 _ IH1 _ IH2
                  |r1 r2 s s' _ IH|r1 r2 s s' _ IH|r s
                  |r s s1 s2 _ IH1 L _ IH2|i r s s' _ IH];
    try (now exists []); try assumption.
  - now exists [a].
  - destruct IH1 as [m1 ->], IH2 as [m2 ->]. exists (m1 ++ m2).
    now rewrite app_assoc.
  - destruct IH1 as [m1 ->], IH2 as [m2 ->]. exists (m1 ++ m2).
    now rewrite app_assoc.
Qed.

Lemma search_sound (n0 : nat) (r : regex) :
  forall s b e c,
    search n0 r s = Some (b, e, c) ->
    (exists pre, s = pre ++ b) /\ matches n0 r b e.
Proof.
  induction s as [|a s IH]; intros b e c; simpl.
  - destruct (rmatch n0 r [] [] accept) as [[e' c']|] eqn:E; [|discriminate].
    intros [= <- <- <-].
    apply rmatch_sound in E as (s1 & c1 & M & [= -> ->]).
    split; [now exists []|exact M].
  - destruct (rmatch n0 r (a :: s) [] accept) as [[e' c']|] eqn:E.
    + intros [= <- <- <-].
      apply rmatch_sound in E as (s1 & c1 & M & [= -> ->]).
      split; [now exists []|exact M].
    + intros H. apply IH in H as [[pre ->] M].
      split; [now exists (a :: pre)|exact M].
Qed.

Lemma search_complete (n0 : nat) (r : regex) :
  forall pre b e, matches n0 r b e -> search n0 r (pre ++ b) <> None.
Proof.
  intros pre b e M.
  assert (B : rmatch n0 r b [] accept <> None).
  { eapply rmatch_complete; [exact M|]. intros c'. discriminate. }
  assert (H0 : search n0 r b <> None).
  { destruct b; simpl; destruct (rmatch n0 r _ [] accept) as [[? ?]|];
      congruence. }
  induction pre as [|a pre IH]; simpl; [exact H0|].
  destruct (rmatch n0 r (a :: pre ++ b) [] accept) as [[? ?]|];
    [discriminate|exact IH].
Qed.

(** [regex_search] finds a match exactly when some part of the input
    is matched by the expression. *)
Lemma regex_search_iff (r : regex) (s : cstring) :
  regex_search r s = true <->
  exists pre b e, s = pre ++ b /\ matches (length s) r b e.
Proof.
  unfold regex_search. split.
  - destruct (search (length s) r s) as [[[b e] c]|] eqn:E; [|discriminate].
    intros _. apply search_sound in E as [[pre ->] M].
    now exists pre, b, e.
  - intros (pre & b & e & -> & M).
    pose proof (search_complete _ _ pre _ _ M) as H.
    destruct (search _ r (pre ++ b)); congruence.
Qed.

End RegexFacts.

(* ================================================================= *)
(** ** What the compiled patterns match *)

Module PatternFacts.
Import Regex RegexFacts.

Lemma matches_lits (n0 : nat) (w : cstring) (r : regex) :
  forall s s',
    matches n0 (lits w r) s s' <->
    exists s1, s = w ++ s1 /\ matches n0 r s1 s'.
Proof.
  induction w as [|a w IH]; intros s s'; simpl.
  - split; [intros H; now exists s|intros (s1 & -> & H); exact H].
  - split.
    + intros H. inversion H as [| | | |r1 r2 t t1 t2 H1 H2| | | | |]; subst.
      inversion H1 as [|cs b t E| | | | | | | |]; subst.
      apply Ascii.eqb_eq in E. subst.
      apply IH in H2 as (s1 & -> & H2). now exists s1.
    + intros (s1 & -> & H). econstructor.
      * constructor. simpl. apply Ascii.eqb_refl.
      * apply IH. now exists s1.
Qed.

Lemma matches_star_sym (n0 : nat) (cs : charset) (s s' : cstring) :
  matches n0 (Star (Sym cs)) s s' <->
  exists w, Forall (fun a => charset_mem cs a = true) w /\ s = w ++ s'.
Proof.
  split.
  - remember (Star (Sym cs)) as r eqn:R. intros H.
    induction H as [s|cs' a s E|s E| |r1 r2 s s1 s2 _ IH1 _ IH2
                    |r1 r2 s s' _ IH|r1 r2 s s' _ IH|r s
                    |r s s1 s2 H1 IH1 L _ IH2|i r s s' _ IH];
      try discriminate.
    + now exists [].
    + injection R as ->. destruct (IH2 eq_refl) as (w & F & ->).
      inversion H1 as [|cs' a t E| | | | | | | |]; subst.
      exists (a :: w). split; [now constructor|reflexivity].
  - intros (w & F & ->). induction F as [|a w E F IH]; simpl.
    + constructor.
    + eapply M_StarS; [now constructor| |exact IH]. simpl. lia.
Qed.

Lemma WS_mem (a : ascii) :
  charset_mem (Bracket false [CSpace false]) a = is_space a.
Proof. simpl. now rewrite orb_false_r. Qed.

Lemma matches_WSplus (n0 : nat) (s s' : cstring) :
  matches n0 WSplus s s' <->
  exists w, w <> [] /\ Whitespace w /\ s = w ++ s'.
Proof.
  unfold WSplus, WS. split.
  - intros H. inversion H as [| | | |r1 r2 t t1 t2 H1 H2| | | | |]; subst.
    inversion H1 as [|cs b t E| | | | | | | |]; subst.
    apply matches_star_sym in H2 as (w & F & ->).
    exists (b :: w). split; [discriminate|]. split; [|reflexivity].
    constructor.
    + now rewrite <- WS_mem.
    + eapply Forall_impl; [|exact F]. intros a. cbv beta. now rewrite WS_mem.
  - intros (w & N & F & ->). destruct w as [|b w]; [congruence|].
    inversion F as [|? ? Eb Fw]; subst. simpl. econstructor.
    + constructor. now rewrite WS_mem.
    + apply matches_star_sym. exists w. split; [|reflexivity].
      eapply Forall_impl; [|exact Fw]. intros a. cbv beta. now rewrite WS_mem.
Qed.

Lemma matches_Eps (n0 : nat) (s s' : cstring) :
  matches n0 Eps s s' <-> s = s'.
Proof.
  split; [intros H; now inversion H|intros ->; constructor].
Qed.

Lemma matches_phrase (n0 : nat) (x y b e : cstring) :
  matches n0 (phrase x y) b e <->
  exists w, w <> [] /\ Whitespace w /\ b = x ++ w ++ y ++ e.
Proof.
  unfold phrase. rewrite matches_lits. split.
  - intros (s1 & -> & H).
    inversion H as [| | | |r1 r2 t t1 t2 H1 H2| | | | |]; subst.
    apply matches_WSplus in H1 as (w & N & F & ->).
    apply matches_lits in H2 as (s2 & -> & H2).
    apply matches_Eps in H2 as ->. now exists w.
  - intros (w & N & F & ->). exists (w ++ y ++ e). split; [reflexivity|].
    econstructor.
    + apply matches_WSplus. now exists w.
    + apply matches_lits. exists e. split; [reflexivity|constructor].
Qed.

(** A capturing group around a whole alternative, as in [(x\s+y)]. *)
Lemma matches_grp_seq (n0 i : nat) (r : regex) (b e : cstring) :
  matches n0 (Seq (Grp i r) Eps) b e <-> matches n0 r b e.
Proof.
  split.
  - intros H. inversion H as [| | | |r1 r2 t t1 t2 H1 H2| | | | |]; subst.
    apply matches_Eps in H2 as ->. now inversion H1.
  - intros H. econstructor; [constructor; exact H|constructor].
Qed.

Lemma matches_Alt (n0 : nat) (r1 r2 : regex) (b e : cstring) :
  matches n0 (Alt r1 r2) b e <-> matches n0 r1 b e \/ matches n0 r2 b e.
Proof.
  split.
  - intros H. inversion H; subst; [now left|now right].
  - intros [H|H]; [now apply M_AltL|now apply M_AltR].
Qed.

(** Searching for a grouped phrase is looking for its text. *)
Lemma search_phrase (i : nat) (x y s : cstring) :
  regex_search (Seq (Grp i (phrase x y)) Eps) s = true <-> FollowedBy x y s.
Proof.
  rewrite regex_search_iff. unfold FollowedBy. split.
  - intros (pre & b & e & -> & M).
    apply matches_grp_seq, matches_phrase in M as (w & N & F & ->).
    now exists pre, w, e.
  - intros (pre & w & post & -> & N & F).
    exists pre, (x ++ w ++ y ++ post), post. split; [reflexivity|].
    apply matches_grp_seq, matches_phrase. now exists w.
Qed.

Lemma regex_search_Alt (r1 r2 : regex) (s : cstring) :
  regex_search (Alt r1 r2) s = regex_search r1 s || regex_search r2 s.
Proof.
  apply eq_true_iff_eq. rewrite orb_true_iff, !regex_search_iff. split.
  - intros (pre & b & e & -> & M). apply matches_Alt in M as [M|M];
      [left|right]; now exists pre, b, e.
  - intros [(pre & b & e & -> & M)|(pre & b & e & -> & M)];
      exists pre, b, e; (split; [reflexivity|]); apply matches_Alt; tauto.
Qed.

End PatternFacts.

(* ================================================================= *)
(** ** Compiling a pattern that contains a plain text *)

Module ParseFacts.
Import Regex.

Ltac split_orb :=
  repeat match goal with
         | H : (_ || _) = false |- _ => apply orb_false_elim in H as [? ?]
         end.

Lemma quantify_none (r : regex) (p : cstring) (g : nat) :
  no_quant p -> quantify r p g = POk r p g.
Proof.
  destruct p as [|q p]; [reflexivity|]. unfold no_quant, is_quantifier_char.
  intros H. split_orb. unfold quantify.
  repeat match goal with H : ch q _ = false |- _ => rewrite H; clear H end.
  reflexivity.
Qed.

Lemma term_plain (f : nat) (a : ascii) (p : cstring) (g : nat) :
  is_syntax_char a = false -> no_quant p ->
  parse_term (S f) (a :: p) g = POk (Sym (One a)) p g.
Proof.
  unfold is_syntax_char. intros H Q. split_orb.
  cbn [parse_term]. unfold is_quantifier_char.
  repeat match goal with H : ch a _ = false |- _ => rewrite H; clear H end.
  cbn [orb]. now apply quantify_none.
Qed.

Lemma plain_no_quant (a : ascii) (p : cstring) :
  is_syntax_char a = false -> no_quant (a :: p).
Proof.
  unfold is_syntax_char, no_quant, is_quantifier_char. intros H. split_orb.
  repeat match goal with H : ch a _ = false |- _ => rewrite H; clear H end.
  reflexivity.
Qed.

Lemma no_quant_app (w rest : cstring) :
  Plain w -> no_quant rest -> no_quant (w ++ rest).
Proof.
  intros [|a w' A _] Q; [exact Q|]. now apply plain_no_quant.
Qed.

(** A plain text in front of an alternative is a sequence of literals. *)
Lemma alt_plain (w rest : cstring) (g f0 : nat) (r : regex)
  (rest' : cstring) (g' : nat) :
  Plain w -> no_quant rest -> 1 <= f0 ->
  (forall f, f0 <= f -> parse_alternative f rest g = POk r rest' g') ->
  forall f, f0 + length w <= f ->
    parse_alternative f (w ++ rest) g = POk (lits w r) rest' g'.
Proof.
  intros W Q F0 R. induction W as [|a w' A W IH]; intros f L.
  - apply R. simpl in L. lia.
  - simpl in L. destruct f as [|f]; [lia|].
    cbn [app parse_alternative lits].
    assert (B : ch a "|" || ch a ")" = false).
    { unfold is_syntax_char in A. split_orb.
      repeat match goal with H : ch a _ = false |- _ => rewrite H; clear H end.
      reflexivity. }
    rewrite B. destruct f as [|f]; [lia|].
    rewrite term_plain by (try exact A; now apply no_quant_app).
    rewrite IH by lia. reflexivity.
Qed.

Lemma no_quant_close (p : cstring) : no_quant (")"%char :: p).
Proof. reflexivity. Qed.

Lemma no_more_none (r : regex) (p : cstring) (g : nat) :
  no_quant p -> no_more r p g = POk r p g.
Proof.
  destruct p as [|q p]; [reflexivity|]. unfold no_quant, no_more.
  now intros ->.
Qed.

Lemma term_ws_plus (f : nat) (p : cstring) (g : nat) :
  no_quant p ->
  parse_term (S f) (str "\s+" ++ p) g = POk WSplus p g.
Proof.
  intros Q.
  change (parse_term (S f) (str "\s+" ++ p) g)
    with (no_more (Seq WS (Star WS)) p g).
  now apply no_more_none.
Qed.

Lemma term_group (f : nat) (a : ascii) (p rest : cstring) (g g1 : nat)
  (r : regex) :
  ch a "?" = false -> no_quant rest ->
  parse_disjunction f (a :: p) (S g) = POk r (")"%char :: rest) g1 ->
  parse_term (S f) ("("%char :: a :: p) g = POk (Grp g r) rest g1.
Proof.
  intros A Q D.
  change (parse_term (S f) ("("%char :: a :: p) g)
    with (if ch a "?"
          then match p with
               | [] => PError
               | m :: p3 =>
                   if ch m ":" then
                     match parse_disjunction f p3 g with
                     | POk r rest g1 =>
                         match rest with
                         | b :: rest' =>
                             if ch b ")" then quantify r rest' g1 else PError
                         | [] => PError
                         end
                     | e => e
                     end
                   else PUnsupported
               end
          else match parse_disjunction f (a :: p) (S g) with
               | POk r rest g1 =>
                   match rest with
                   | b :: rest' =>
                       if ch b ")" then quantify (Grp g r) rest' g1
                       else PError
                   | [] => PError
                   end
               | e => e
               end).
  rewrite A, D. cbn [ch Ascii.eqb Bool.eqb]. now apply quantify_none.
Qed.

Lemma disjunction_single (f : nat) (p rest : cstring) (g g1 : nat)
  (r : regex) :
  parse_alternative f p g = POk r (")"%char :: rest) g1 ->
  parse_disjunction (S f) p g = POk r (")"%char :: rest) g1.
Proof. intros A. cbn [parse_disjunction]. now rewrite A. Qed.

(** The pattern of the Recursive Dependency rule for a plain table
    name. *)
Lemma recursive_dependency_pattern (name : cstring) :
  Plain name ->
  std_regex (str "(references\s+" ++ name ++ str ")") =
  Returned (Seq (Grp 1 (phrase (str "references") name)) Eps).
Proof.
  intros N.
  assert (A1 : forall f, 1 + length name <= f ->
            parse_alternative f (name ++ str ")") 2 =
            POk (lits name Eps) (str ")") 2).
  { apply alt_plain; [exact N|reflexivity|lia|].
    intros [|f] L; [lia|reflexivity]. }
  assert (A2 : forall f, 3 + length name <= f ->
            parse_alternative f (str "\s+" ++ name ++ str ")") 2 =
            POk (Seq WSplus (lits name Eps)) (str ")") 2).
  { intros [|[|f]] L; try (simpl in L; lia).
    change (parse_alternative (S (S f)) (str "\s+" ++ name ++ str ")") 2)
      with (match parse_term (S f) (str "\s+" ++ name ++ str ")") 2 with
            | POk t rest g1 =>
                match parse_alternative (S f) rest g1 with
                | POk r rest2 g2 => POk (Seq t r) rest2 g2
                | e => e
                end
            | e => e
            end).
    rewrite term_ws_plus by (apply no_quant_app; [exact N|reflexivity]).
    rewrite A1 by (simpl in L; lia). reflexivity. }
  assert (A3 : forall f, 13 + length name <= f ->
            parse_alternative f
              (str "references" ++ str "\s+" ++ name ++ str ")") 2 =
            POk (phrase (str "references") name) (str ")") 2).
  { intros f L. unfold phrase.
    apply (alt_plain (str "references") _ 2 (3 + length name));
      [repeat constructor|reflexivity|lia|exact A2|simpl; lia]. }
  assert (T : forall f, 15 + length name <= f ->
            parse_term f (str "(references\s+" ++ name ++ str ")") 1 =
            POk (Grp 1 (phrase (str "references") name)) [] 2).
  { intros [|[|f]] L; try (simpl in L; lia).
    apply term_group; [reflexivity|exact I|].
    apply disjunction_single, A3. simpl in L. lia. }
  unfold std_regex, regex_compile, parse_fuel.
  replace (3 * length (str "(references\s+" ++ name ++ str ")") + 3)
    with (S (S (18 + length name + (2 * length name + 28)))).
  2: { rewrite !length_app. simpl. lia. }
  change (parse_disjunction (S (S ?f)) ?p 1)
    with (match
            match parse_term f p 1 with
            | POk t rest g1 =>
                match parse_alternative f rest g1 with
                | POk r rest2 g2 => POk (Seq t r) rest2 g2
                | e => e
                end
            | e => e
            end
          with
          | POk r1 rest g1 =>
              match rest with
              | b :: p' =>
                  if ch b "|" then
                    match parse_disjunction (S f) p' g1 with
                    | POk r2 rest2 g2 => POk (Alt r1 r2) rest2 g2
                    | e => e
                    end
                  else POk r1 rest g1
              | [] => POk r1 rest g1
              end
          | e => e
          end).
  rewrite T by lia. reflexivity.
Qed.

End ParseFacts.

(* ================================================================= *)
(** ** The pattern of [GetTableName] *)

Module StripFacts.
Import Regex StdString StringFacts RegexFacts.

Lemma strip_pattern : std_regex (str "^ +| +$|( ) +") = Returned strip_regex.
Proof. vm_compute. reflexivity. Qed.

Lemma ltb_cons (a : ascii) (s : cstring) :
  (length s <? length (a :: s)) = true.
Proof. apply Nat.ltb_lt. simpl. lia. Qed.

Lemma SP_step n0 a s c k :
  rmatch n0 SP (a :: s) c k = if Ascii.eqb a chr_space then k s c else None.
Proof. reflexivity. Qed.

Lemma head_sp_SP n0 t c k : head_sp t = false -> rmatch n0 SP t c k = None.
Proof.
  destruct t as [|a t]; simpl; [reflexivity|]. intros ->. reflexivity.
Qed.

Lemma star_SP_accepting n0 (k : cont) t c x :
  head_sp t = false -> k t c = Some x ->
  forall n f, n <= f ->
    star_iter (rmatch n0 SP) k f (spaces n ++ t) c = Some x.
Proof.
  intros T K. induction n as [|n IH]; intros f L.
  - cbn [spaces repeat app]. destruct f; cbn [star_iter]; [exact K|].
    rewrite head_sp_SP by exact T. exact K.
  - destruct f as [|f]; [lia|]. cbn [star_iter spaces repeat app].
    rewrite SP_step. rewrite Ascii.eqb_refl. cbv beta.
    fold (spaces n). rewrite ltb_cons, IH by lia. reflexivity.
Qed.

Lemma star_SP_rejecting n0 (k : cont) t c :
  head_sp t = false ->
  forall n f, n <= f ->
    (forall j, j <= n -> k (spaces j ++ t) c = None) ->
    star_iter (rmatch n0 SP) k f (spaces n ++ t) c = None.
Proof.
  intros T. induction n as [|n IH]; intros f L K.
  - cbn [spaces repeat app]. destruct f; cbn [star_iter]; [exact (K 0 (le_n 0))|].
    rewrite head_sp_SP by exact T. exact (K 0 (le_n 0)).
  - destruct f as [|f]; [lia|]. cbn [star_iter spaces repeat app].
    rewrite SP_step. rewrite Ascii.eqb_refl. cbv beta.
    fold (spaces n). rewrite ltb_cons.
    rewrite IH by (try lia; intros j J; apply K; lia).
    apply (K (S n)). lia.
Qed.

Lemma SPplus_accepting n0 (k : cont) t c x n :
  head_sp t = false -> k t c = Some x ->
  rmatch n0 SPplus (spaces (S n) ++ t) c k = Some x.
Proof.
  intros T K. unfold SPplus. cbn [rmatch spaces repeat app].
  rewrite SP_step, Ascii.eqb_refl. fold (spaces n).
  apply star_SP_accepting; auto. rewrite length_app. unfold spaces.
  rewrite repeat_length. lia.
Qed.

Lemma SPplus_rejecting n0 (k : cont) t c n :
  head_sp t = false ->
  (forall j, j <= n -> k (spaces j ++ t) c = None) ->
  rmatch n0 SPplus (spaces (S n) ++ t) c k = None.
Proof.
  intros T K. unfold SPplus. cbn [rmatch spaces repeat app].
  rewrite SP_step, Ascii.eqb_refl. fold (spaces n).
  apply star_SP_rejecting; auto. rewrite length_app. unfold spaces.
  rewrite repeat_length. lia.
Qed.

Lemma SPplus_nospace n0 (k : cont) t c :
  head_sp t = false -> rmatch n0 SPplus t c k = None.
Proof.
  intros T. unfold SPplus. cbn [rmatch]. now apply head_sp_SP.
Qed.

(** How the three alternatives behave on a run of [n] spaces followed by a
    text [t] that does not begin with a space. *)
Lemma strip_at (n0 n : nat) (t : cstring) :
  head_sp t = false ->
  rmatch n0 strip_regex (spaces n ++ t) [] accept =
  match n with
  | 0 => None
  | S n' =>
      if length (spaces n ++ t) =? n0 then Some (t, [])
      else match t with
           | [] => Some ([], [])
           | _ :: _ =>
               match n' with
               | 0 => None
               | S _ => Some (t, [(1, [chr_space])])
               end
           end
  end.
Proof.
  intros T. unfold strip_regex. cbn [rmatch].
  destruct n as [|n].
  - cbn [spaces repeat app]. rewrite !SPplus_nospace by exact T.
    rewrite head_sp_SP by exact T.
    destruct (length t =? n0); reflexivity.
  - destruct (length (spaces (S n) ++ t) =? n0) eqn:E.
    + erewrite SPplus_accepting; [reflexivity|exact T|reflexivity].
    + destruct t as [|a t].
      * erewrite SPplus_accepting; [reflexivity|exact T|reflexivity].
      * rewrite SPplus_rejecting.
        2: exact T.
        2: { intros j _. destruct j; reflexivity. }
        cbn [spaces repeat app]. rewrite SP_step, Ascii.eqb_refl.
        destruct n as [|n].
        -- cbn [repeat app]. now rewrite SPplus_nospace.
        -- fold (spaces (S n)). erewrite SPplus_accepting; [|exact T|reflexivity].
           f_equal. f_equal. f_equal. f_equal.
           cbn [length]. 
           replace (S (length (spaces (S n) ++ a :: t))
                    - length (spaces (S n) ++ a :: t)) with 1 by lia.
           reflexivity.
Qed.


(** The replacement loop on [strip_regex]. *)


Lemma space_only_space : Spec.space_only chr_space = true.
Proof. reflexivity. Qed.

Lemma decompose (s : cstring) :
  exists n t, s = spaces n ++ t /\ head_sp t = false.
Proof.
  induction s as [|a s (n & t & -> & T)].
  - now exists 0, [].
  - destruct (Ascii.eqb a chr_space) eqn:E.
    + apply Ascii.eqb_eq in E. subst a. now exists (S n), t.
    + exists 0, (a :: spaces n ++ t). split; [reflexivity|exact E].
Qed.

Lemma spaces_length (n : nat) (t : cstring) :
  length (spaces n ++ t) = n + length t.
Proof. unfold spaces. now rewrite length_app, repeat_length. Qed.

Lemma trim_left_spaces (n : nat) (t : cstring) :
  head_sp t = false -> Spec.trim_left Spec.space_only (spaces n ++ t) = t.
Proof.
  intros T. induction n as [|n IH]; simpl.
  - destruct t as [|a t]; [reflexivity|]. simpl in *.
    unfold Spec.space_only. now rewrite T.
  - exact IH.
Qed.

Lemma trim_right_spaces (n : nat) : Spec.trim_right Spec.space_only (spaces n) = [].
Proof.
  induction n as [|n IH]; [reflexivity|].
  cbn [spaces repeat Spec.trim_right]. fold (spaces n). now rewrite IH.
Qed.

Lemma trim_right_cons (a : ascii) (t : cstring) :
  Spec.space_only a = false ->
  Spec.trim_right Spec.space_only (a :: t) =
  a :: Spec.trim_right Spec.space_only t.
Proof. intros A. simpl. rewrite A. now destruct (Spec.trim_right Spec.space_only t). Qed.

Lemma trim_right_run (n : nat) (a : ascii) (t : cstring) :
  Spec.space_only a = false ->
  Spec.trim_right Spec.space_only (spaces n ++ a :: t) =
  spaces n ++ a :: Spec.trim_right Spec.space_only t.
Proof.
  intros A. induction n as [|n IH].
  - now apply trim_right_cons.
  - cbn [spaces repeat app Spec.trim_right]. fold (spaces n).
    rewrite IH. now destruct n.
Qed.

Lemma collapse_run (n : nat) (a : ascii) (x : cstring) :
  Spec.space_only a = false ->
  Spec.collapse Spec.space_only (spaces (S n) ++ a :: x) =
  chr_space :: a :: Spec.collapse Spec.space_only x.
Proof.
  intros A. induction n as [|n IH].
  - simpl. now rewrite A.
  - cbn [spaces repeat app] in *. cbn [Spec.collapse]. rewrite space_only_space.
    exact IH.
Qed.

Lemma tail_norm_cons (a : ascii) (t : cstring) :
  Spec.space_only a = false -> tail_norm (a :: t) = a :: tail_norm t.
Proof.
  intros A. unfold tail_norm. rewrite trim_right_cons by exact A.
  simpl. now rewrite A.
Qed.

Lemma tail_norm_run (n : nat) (a : ascii) (t : cstring) :
  Spec.space_only a = false ->
  tail_norm (spaces (S n) ++ a :: t) = chr_space :: tail_norm (a :: t).
Proof.
  intros A. unfold tail_norm.
  rewrite trim_right_run, collapse_run, trim_right_cons by exact A.
  simpl. now rewrite A.
Qed.

Lemma tail_norm_spaces (n : nat) : tail_norm (spaces n) = [].
Proof. unfold tail_norm. now rewrite trim_right_spaces. Qed.

Lemma search_length (n0 : nat) (r : regex) (s b e : cstring) (c : caps) :
  search n0 r s = Some (b, e, c) -> length b <= length s.
Proof.
  intros H. apply search_sound in H as [[pre ->] _].
  rewrite length_app. lia.
Qed.

Lemma between_cons (a : ascii) (s b : cstring) :
  length b <= length s -> between (a :: s) b = a :: between s b.
Proof.
  intros L. unfold between. simpl length.
  replace (S (length s) - length b) with (S (length s - length b)) by lia.
  reflexivity.
Qed.

Lemma between_same (s : cstring) : between s s = [].
Proof. unfold between. now rewrite Nat.sub_diag. Qed.

(** No match at the front: the character is copied and the loop goes on. *)
Lemma loop_skip (n0 f : nat) (r : regex) (a : ascii) (s : cstring) :
  rmatch n0 r (a :: s) [] accept = None ->
  replace_loop (S f) n0 r fmt1 (a :: s) =
  a :: replace_loop (S f) n0 r fmt1 s.
Proof.
  intros H. cbn [replace_loop search]. rewrite H.
  destruct (search n0 r s) as [[[b e] c]|] eqn:E; [|reflexivity].
  rewrite (between_cons a _ _ (search_length _ _ _ _ _ _ E)).
  reflexivity.
Qed.

(** A non-empty match at the front: group 1 replaces it. *)
Lemma loop_hit (n0 f : nat) (r : regex) (s e : cstring) (c : caps) :
  rmatch n0 r s [] accept = Some (e, c) ->
  length e < length s ->
  replace_loop (S f) n0 r fmt1 s = group 1 c ++ replace_loop f n0 r fmt1 e.
Proof.
  intros H L. cbn [replace_loop].
  assert (S1 : search n0 r s = Some (s, e, c))
    by (destruct s; simpl; now rewrite H).
  rewrite S1, between_same. apply Nat.ltb_lt in L. rewrite L.
  cbn [fmt1 format app]. now rewrite app_nil_r.
Qed.

Lemma loop_nil (n0 f : nat) : replace_loop f n0 strip_regex fmt1 [] = [].
Proof.
  destruct f; [reflexivity|].
  pose proof (strip_at n0 0 [] eq_refl) as R. cbn [spaces repeat app] in R.
  cbn [replace_loop search]. now rewrite R.
Qed.

Lemma loop_tail (n0 : nat) :
  forall m s f,
    length s <= m -> length s < n0 -> length s < f ->
    replace_loop f n0 strip_regex fmt1 s = tail_norm s.
Proof.
  induction m as [|m IH]; intros s f Lm Ln Lf.
  - destruct s; [|simpl in Lm; lia]. apply loop_nil.
  - destruct f as [|f]; [lia|].
    destruct (decompose s) as (n & t & -> & T).
    pose proof (strip_at n0 n t T) as R.
    rewrite spaces_length in Lm, Ln, Lf.
    destruct n as [|n].
    + cbn [spaces repeat app] in *.
      destruct t as [|a t]; [apply loop_nil|]. simpl in T, Lm, Ln, Lf.
      rewrite (loop_skip _ _ _ _ _ R), tail_norm_cons by exact T.
      f_equal. apply IH; lia.
    + rewrite spaces_length in R.
      replace (S n + length t =? n0) with false in R
        by (symmetry; apply Nat.eqb_neq; lia).
      destruct t as [|a t].
      * rewrite (loop_hit _ _ _ _ _ _ R) by (rewrite spaces_length; simpl; lia).
        rewrite loop_nil, !app_nil_r, tail_norm_spaces. reflexivity.
      * simpl in T. destruct n as [|n].
        -- cbn [spaces repeat app] in *.
           rewrite (loop_skip _ _ _ _ _ R).
           change (chr_space :: a :: t) with (spaces 1 ++ a :: t).
           rewrite tail_norm_run by exact T. f_equal.
           apply IH; simpl in *; lia.
        -- rewrite (loop_hit _ _ _ _ _ _ R) by (rewrite spaces_length; simpl; lia).
           rewrite tail_norm_run by exact T. simpl. f_equal.
           apply IH; simpl in *; lia.
Qed.

(** [regex_replace] with the pattern of [GetTableName] trims the spaces
    at both ends and collapses the runs of spaces in between. *)
Lemma strip_normalises (s : cstring) :
  regex_replace s strip_regex (str "$1") =
  Spec.collapse Spec.space_only
    (Spec.trim_right Spec.space_only (Spec.trim_left Spec.space_only s)).
Proof.
  unfold regex_replace. change (parse_format (str "$1")) with fmt1.
  destruct (decompose s) as (n & t & -> & T).
  rewrite trim_left_spaces by exact T. fold (tail_norm t).
  pose proof (strip_at (length (spaces n ++ t)) n t T) as R.
  destruct n as [|n].
  - cbn [spaces repeat app] in *.
    destruct t as [|a t]; [reflexivity|]. simpl in T.
    rewrite (loop_skip _ _ _ _ _ R), tail_norm_cons by exact T.
    f_equal. apply (loop_tail _ (length t)); simpl; lia.
  - rewrite Nat.eqb_refl in R.
    rewrite (loop_hit _ _ _ _ _ _ R) by (rewrite spaces_length; simpl; lia).
    cbn [group app].
    apply (loop_tail _ (length t)); rewrite ?spaces_length; lia.
Qed.

End StripFacts.

(* ================================================================= *)
(** ** The rules *)

Import Regex StdString StringFacts RegexFacts PatternFacts ParseFacts StripFacts.

Lemma not_created (s : cstring) :
  ~ Substring (str "create table") s ->
  IsCreateStatement s = false /\ GetTableName s = Returned [].
Proof.
  intros H. apply find_none in H.
  unfold IsCreateStatement, GetTableName. now rewrite H.
Qed.

(** C1.  On a statement whose text does not contain "create table",
    each of the four creation-gated rules (Primary Key Exists, Generic
    Primary Key, Foreign Key Exists, Recursive Dependency) returns
    without emitting anything, whatever the configuration: the
    absence-means-violation rules do not fire there. *)
Theorem creation_gate_is_hard_skip (state : Configuration) (s : cstring) :
  ~ Substring (str "create table") s ->
  CheckPrimaryKeyExists state s = Returned [] /\
  CheckGenericPrimaryKey state s = Returned [] /\
  CheckForeignKeyExists state s = Returned [] /\
  CheckRecursiveDependency state s = Returned [].
Proof.
  intros H. destruct (not_created s H) as [HC HT].
  unfold CheckPrimaryKeyExists, CheckGenericPrimaryKey,
    CheckForeignKeyExists, CheckRecursiveDependency.
  rewrite HC, HT. repeat split; reflexivity.
Qed.

Lemma creation_gate_is_hard_skip_witness :
  ~ Substring (str "create table") (str "select * from Users") /\
  CheckPrimaryKeyExists all_enabled (str "select * from Users") = Returned [] /\
  CheckGenericPrimaryKey all_enabled (str "select * from Users") = Returned [] /\
  CheckForeignKeyExists all_enabled (str "select * from Users") = Returned [] /\
  CheckRecursiveDependency all_enabled (str "select * from Users") = Returned [].
Proof.
  assert (H : ~ Substring (str "create table") (str "select * from Users"))
    by (apply find_none; vm_compute; reflexivity).
  split; [exact H|].
  exact (creation_gate_is_hard_skip all_enabled _ H).
Defined.

(** C5.  With every rule enabled, "select * from Users" yields exactly
    one diagnostic: it is titled "SELECT *" and has severity ERROR. *)
Theorem select_star_is_the_only_diagnostic :
  exists d,
    evaluate all_enabled (str "select * from Users") = Returned [d] /\
    diag_title d = str "SELECT *" /\
    diag_level d = LOG_LEVEL_ERROR.
Proof.
  eexists. split; [vm_compute; reflexivity|].
  split; reflexivity.
Qed.

(** C6.  "create table Users (id int, name varchar(50))" yields exactly
    one "Primary Key Exists" diagnostic, of severity WARN, and exactly
    one "Generic Primary Key" diagnostic, of severity ERROR. *)
Theorem table_with_generic_id_and_no_key :
  exists ds pk gk,
    evaluate all_enabled
      (str "create table Users (id int, name varchar(50))") = Returned ds /\
    titled (str "Primary Key Exists") ds = [pk] /\
    diag_level pk = LOG_LEVEL_WARN /\
    titled (str "Generic Primary Key") ds = [gk] /\
    diag_level gk = LOG_LEVEL_ERROR.
Proof.
  eexists. eexists. eexists.
  split; [vm_compute; reflexivity|].
  split; [vm_compute; reflexivity|].
  split; [reflexivity|].
  split; [vm_compute; reflexivity|reflexivity].
Qed.

(** C7.  "create table Users (user_id int primary key, name
    varchar(50))" yields no "Primary Key Exists" diagnostic and no
    "Generic Primary Key" diagnostic. *)
Theorem table_with_named_key :
  exists ds,
    evaluate all_enabled
      (str "create table Users (user_id int primary key, name varchar(50))")
    = Returned ds /\
    titled (str "Primary Key Exists") ds = [] /\
    titled (str "Generic Primary Key") ds = [].
Proof.
  eexists. split; [vm_compute; reflexivity|].
  split; vm_compute; reflexivity.
Qed.

Lemma MultiValuedAttribute_pattern :
  std_regex (str "(id\s+varchar)|(id\s+text)|(id\s+regexp)") =
  Returned
    (Alt (Seq (Grp 1 (phrase (str "id") (str "varchar"))) Eps)
       (Alt (Seq (Grp 2 (phrase (str "id") (str "text"))) Eps)
            (Seq (Grp 3 (phrase (str "id") (str "regexp"))) Eps))).
Proof. vm_compute. reflexivity. Qed.

Lemma MultiValuedAttribute_found (s : cstring) :
  regex_search
    (Alt (Seq (Grp 1 (phrase (str "id") (str "varchar"))) Eps)
       (Alt (Seq (Grp 2 (phrase (str "id") (str "text"))) Eps)
            (Seq (Grp 3 (phrase (str "id") (str "regexp"))) Eps))) s = true
  <-> MultiValued s.
Proof.
  rewrite !regex_search_Alt, !orb_true_iff, !search_phrase.
  reflexivity.
Qed.

(** C10.  The Multi-Valued Attribute rule has no creation gate and no
    identifier boundary: on every statement that contains "id", one or
    more whitespace characters, and then "varchar", "text" or "regexp",
    it emits exactly one diagnostic, titled "Multi-Valued Attribute",
    of severity ERROR and category CREATION; on every other statement
    it emits none. *)
Theorem multi_valued_attribute_rule (state : Configuration) (s : cstring) :
  exists ds,
    CheckMultiValuedAttribute state s = Returned ds /\
    (MultiValued s ->
     exists d, ds = [d] /\
       diag_title d = str "Multi-Valued Attribute" /\
       diag_level d = LOG_LEVEL_ERROR /\
       diag_type d = PATTERN_TYPE_CREATION) /\
    (~ MultiValued s -> ds = []).
Proof.
  unfold CheckMultiValuedAttribute.
  rewrite MultiValuedAttribute_pattern. unfold bind, CheckPattern.
  pose proof (MultiValuedAttribute_found s) as F.
  destruct (regex_search _ s); eexists; (split; [reflexivity|]); simpl.
  - split; [|intros N; exfalso; apply N; now apply F].
    intros _. eexists. split; [reflexivity|]. now repeat split.
  - split; [|reflexivity].
    intros M. apply F in M. discriminate.
Qed.

Lemma multi_valued_attribute_rule_witness :
  MultiValued (str "select userid varchar from t") /\
  exists d,
    CheckMultiValuedAttribute all_enabled (str "select userid varchar from t")
    = Returned [d] /\
    diag_title d = str "Multi-Valued Attribute" /\
    diag_level d = LOG_LEVEL_ERROR /\
    diag_type d = PATTERN_TYPE_CREATION.
Proof.
  assert (M : MultiValued (str "select userid varchar from t")).
  { left. exists (str "select user"), [chr_space], (str " from t").
    split; [reflexivity|]. split; [discriminate|repeat constructor]. }
  split; [exact M|].
  destruct (multi_valued_attribute_rule all_enabled
              (str "select userid varchar from t")) as (ds & E & Y & _).
  destruct (Y M) as (d & D & A). exists d. rewrite <- D. now split.
Defined.

(** An identifier that merely ends in "id" triggers the rule, also on a
    statement that creates nothing. *)
Example multi_valued_attribute_on_query :
  IsCreateStatement (str "select userid varchar from t") = false /\
  exists d,
    CheckMultiValuedAttribute all_enabled (str "select userid varchar from t")
    = Returned [d].
Proof.
  split; [reflexivity|]. eexists. vm_compute. reflexivity.
Qed.

(* ----------------------------------------------------------------- *)
(** *** The table name *)

(** The first occurrence of the keyword decides, and there is no table
    name without it. *)
Lemma after_first_spec (kw s : cstring) :
  match Spec.after_first kw s with
  | None => ~ Substring kw s
  | Some rest =>
      exists pre, s = pre ++ kw ++ rest /\
        forall pre' post', s = pre' ++ kw ++ post' -> length pre <= length pre'
  end.
Proof.
  induction s as [|a s IH]; simpl.
  - destruct (prefixb kw []) eqn:E.
    + exists []. split; [now apply prefixb_split in E|simpl; lia].
    + intros (pre & post & H). destruct pre; [|discriminate].
      simpl in H. rewrite H, prefixb_app in E. discriminate.
  - destruct (prefixb kw (a :: s)) eqn:E.
    + exists []. split; [now apply prefixb_split in E|simpl; lia].
    + destruct (Spec.after_first kw s) as [rest|].
      * destruct IH as (pre & -> & M). exists (a :: pre).
        split; [reflexivity|]. intros [|b pre'] post' H.
        -- simpl in H. rewrite H, prefixb_app in E. discriminate.
        -- injection H as -> H. apply M in H. simpl. lia.
      * intros (pre & post & H). destruct pre as [|b pre].
        -- simpl in H. rewrite H, prefixb_app in E. discriminate.
        -- injection H as -> H. apply IH. now exists pre, post.
Qed.

Lemma GetTableName_extractTableName (s : cstring) :
  GetTableName s = Returned (Spec.extractTableName Spec.space_only s).
Proof.
  unfold GetTableName, Spec.extractTableName.
  rewrite after_first_find.
  destruct (find s (str "create table")) as [i|]; [|reflexivity].
  rewrite strip_pattern. cbn [bind option_map].
  now rewrite strip_normalises, find_char_firstn.
Qed.

(** C4, as amended.  For every statement, [GetTableName] returns the
    table name of section 4.1 read with the space character as the only
    whitespace: empty when "create table" does not occur; otherwise the
    text after the first occurrence of "create table", with leading and
    trailing spaces trimmed and runs of spaces collapsed, up to its
    first space. *)
Theorem GetTableName_refines_spec (s : cstring) :
  GetTableName s = Returned (Spec.extractTableName Spec.space_only s) /\
  (~ Substring (str "create table") s -> GetTableName s = Returned []) /\
  (forall rest,
     Spec.after_first (str "create table") s = Some rest ->
     GetTableName s =
     Returned
       (Spec.first_token Spec.space_only
          (Spec.collapse Spec.space_only
             (Spec.trim_right Spec.space_only
                (Spec.trim_left Spec.space_only rest)))) /\
     exists pre,
       s = pre ++ str "create table" ++ rest /\
       forall pre' post',
         s = pre' ++ str "create table" ++ post' ->
         length pre <= length pre').
Proof.
  pose proof (GetTableName_extractTableName s) as G.
  split; [exact G|]. split.
  - intros N. now apply not_created.
  - intros rest A. split.
    + rewrite G. unfold Spec.extractTableName. now rewrite A.
    + pose proof (after_first_spec (str "create table") s) as F.
      now rewrite A in F.
Qed.

Lemma GetTableName_refines_spec_witness :
  Spec.after_first (str "create table")
    (str "select 1; create table   Users   (id int) ")
  = Some (str "   Users   (id int) ") /\
  GetTableName (str "select 1; create table   Users   (id int) ")
  = Returned (str "Users").
Proof.
  assert (A : Spec.after_first (str "create table")
                (str "select 1; create table   Users   (id int) ")
              = Some (str "   Users   (id int) ")) by reflexivity.
  split; [exact A|].
  destruct (GetTableName_refines_spec
              (str "select 1; create table   Users   (id int) "))
    as (_ & _ & R).
  destruct (R _ A) as [G _]. exact G.
Defined.

(** C4, as stated, fails: a tab between the keyword and the identifier
    is whitespace for the specification but is kept by the code. *)
Lemma tab_before_table_name_is_kept :
  GetTableName (str "create table" ++ ["009"%char] ++ str "Users (id int)")
  = Returned ("009"%char :: str "Users") /\
  Spec.extractTableName Spec.any_whitespace
    (str "create table" ++ ["009"%char] ++ str "Users (id int)")
  = str "Users" /\
  GetTableName (str "create table" ++ ["009"%char] ++ str "Users (id int)")
  <> Returned
       (Spec.extractTableName Spec.any_whitespace
          (str "create table" ++ ["009"%char] ++ str "Users (id int)")).
Proof.
  split; [vm_compute; reflexivity|].
  split; [vm_compute; reflexivity|].
  vm_compute. discriminate.
Qed.

(** C3.  The code at the failing input.  On "create table Users (id
    int, name varchar(50))" [GetTableName] returns "Users".  On the
    unspaced variant "create table Users(id int, name varchar(50))" it
    returns "Users(id": the cut is at the first space, so the opening
    parenthesis and the first column name stay in what the function
    hands out as the table name. *)
Theorem table_name_of_Users :
  GetTableName (str "create table Users (id int, name varchar(50))")
  = Returned (str "Users") /\
  GetTableName (str "create table Users(id int, name varchar(50))")
  = Returned (str "Users(id").
Proof. split; vm_compute; reflexivity. Qed.

(** On the unspaced variant the result is neither "Users" nor
    "Users(". *)
Lemma unspaced_table_name_keeps_column :
  ~ (GetTableName (str "create table Users (id int, name varchar(50))")
     = Returned (str "Users") /\
     (GetTableName (str "create table Users(id int, name varchar(50))")
      = Returned (str "Users") \/
      GetTableName (str "create table Users(id int, name varchar(50))")
      = Returned (str "Users("))).
Proof.
  intros [_ [H|H]]; vm_compute in H; discriminate.
Qed.

(* ----------------------------------------------------------------- *)
(** *** The pattern built from the table name *)

Lemma followed_by_search (x y s : cstring) :
  FollowedBy x y s <->
  regex_search (Seq (Grp 1 (phrase x y)) Eps) s = true.
Proof. symmetry. apply search_phrase. Qed.

Lemma CheckRecursiveDependency_compiled (state : Configuration)
  (s name : cstring) :
  GetTableName s = Returned name -> name <> [] -> Plain name ->
  CheckRecursiveDependency state s =
  Returned
    (CheckPattern state s
       (Seq (Grp 1 (phrase (str "references") name)) Eps)
       LOG_LEVEL_ERROR PATTERN_TYPE_CREATION (str "Recursive Dependency")
       Messages.RecursiveDependency true).
Proof.
  intros G N P. unfold CheckRecursiveDependency. rewrite G. cbn [bind].
  destruct name as [|a name]; [congruence|].
  now rewrite (recursive_dependency_pattern _ P).
Qed.

Lemma CheckPattern_match (state : Configuration) (s : cstring) (p : regex)
  (lvl : LogLevel) (ty : PatternType) (t m : cstring) :
  CheckPattern state s p lvl ty t m true =
  if regex_search p s
  then [ {| diag_title := t; diag_level := lvl; diag_type := ty;
            diag_message := m; diag_statement := s |} ]
  else [].
Proof. unfold CheckPattern. now destruct (regex_search p s). Qed.

(** C8, as amended.  The table name goes into the pattern as it is.
    For every statement whose table name is not empty and contains no
    pattern-special character, the Recursive Dependency rule emits
    exactly one diagnostic, of severity ERROR, when the statement
    contains "references", one or more whitespace characters and that
    name, and none otherwise. *)
Theorem recursive_dependency_on_plain_name (state : Configuration)
  (s name : cstring) :
  GetTableName s = Returned name -> name <> [] -> Plain name ->
  exists ds,
    CheckRecursiveDependency state s = Returned ds /\
    (FollowedBy (str "references") name s ->
     exists d, ds = [d] /\
       diag_title d = str "Recursive Dependency" /\
       diag_level d = LOG_LEVEL_ERROR) /\
    (~ FollowedBy (str "references") name s -> ds = []).
Proof.
  intros G N P.
  rewrite (CheckRecursiveDependency_compiled state s name G N P).
  rewrite CheckPattern_match.
  pose proof (followed_by_search (str "references") name s) as F.
  destruct (regex_search _ s); eexists; (split; [reflexivity|]).
  - split; [|intros H; exfalso; apply H; now apply F].
    intros _. eexists. split; [reflexivity|]. now split.
  - split; [|reflexivity].
    intros M. apply F in M. discriminate.
Qed.

Lemma recursive_dependency_on_plain_name_witness :
  GetTableName
    (str "create table Category (id int, parent_id int, references Category)")
  = Returned (str "Category") /\
  str "Category" <> [] /\
  Plain (str "Category") /\
  exists ds,
    CheckRecursiveDependency all_enabled
      (str "create table Category (id int, parent_id int, references Category)")
    = Returned ds /\
    (FollowedBy (str "references") (str "Category")
       (str "create table Category (id int, parent_id int, references Category)") ->
     exists d, ds = [d] /\
       diag_title d = str "Recursive Dependency" /\
       diag_level d = LOG_LEVEL_ERROR) /\
    (~ FollowedBy (str "references") (str "Category")
         (str "create table Category (id int, parent_id int, references Category)") ->
     ds = []).
Proof.
  assert (G : GetTableName
                (str "create table Category (id int, parent_id int, references Category)")
              = Returned (str "Category")) by (vm_compute; reflexivity).
  assert (N : str "Category" <> []) by discriminate.
  assert (P : Plain (str "Category")) by (repeat constructor).
  split; [exact G|]. split; [exact N|]. split; [exact P|].
  exact (recursive_dependency_on_plain_name all_enabled _ _ G N P).
Defined.

(** C8, as stated, fails: in the table name "a.b" the dot is a
    wildcard, so the rule fires on a statement that references "axb"
    and nowhere contains "references a.b". *)
Lemma table_name_is_not_escaped :
  GetTableName (str "create table a.b (x int, references axb)")
  = Returned (str "a.b") /\
  (exists d,
     CheckRecursiveDependency all_enabled
       (str "create table a.b (x int, references axb)") = Returned [d]) /\
  ~ FollowedBy (str "references") (str "a.b")
      (str "create table a.b (x int, references axb)").
Proof.
  split; [vm_compute; reflexivity|].
  split; [eexists; vm_compute; reflexivity|].
  intros H. apply followed_by_search in H. vm_compute in H. discriminate.
Qed.

(** A table name with an unbalanced parenthesis makes the pattern
    ill-formed: constructing it throws, and the rule does not return. *)
Example unspaced_table_name_throws :
  CheckRecursiveDependency all_enabled
    (str "create table Users(id int, name varchar(50))") = RegexError.
Proof. vm_compute. reflexivity. Qed.

(* ----------------------------------------------------------------- *)
(** *** The Recursive Dependency rule on table Category *)

Lemma word_not_space (a : ascii) : is_word a = true -> is_space a = false.
Proof.
  destruct a as [[] [] [] [] [] [] [] []]; intros H;
    try reflexivity; vm_compute in H; discriminate.
Qed.

Lemma trim_right_closed (x : cstring) :
  Spec.trim_right Spec.space_only (x ++ str ")") = x ++ str ")".
Proof.
  induction x as [|a x IH]; [reflexivity|].
  cbn [app Spec.trim_right]. rewrite IH.
  destruct (x ++ str ")") eqn:E; [|reflexivity].
  now apply app_eq_nil in E as [_ E].
Qed.

Lemma category_table_name (T : cstring) :
  GetTableName (category_statement T) = Returned (str "Category").
Proof.
  rewrite GetTableName_extractTableName. f_equal.
  unfold Spec.extractTableName, category_statement.
  cbn [str list_ascii_of_string app Spec.after_first prefixb Ascii.eqb
       Bool.eqb andb length skipn].
  cbn [Spec.trim_left Spec.space_only Ascii.eqb Bool.eqb chr_space].
  match goal with
  | |- context [Spec.trim_right _ ?l] =>
      change l
        with (str "Category (id int, parent_id int, references " ++ T ++
              str ")")
  end.
  rewrite app_assoc, trim_right_closed.
  reflexivity.
Qed.

Ltac peel pre H n :=
  match n with
  | 0 => idtac
  | S ?k =>
      destruct pre as [|? pre];
      [cbn [app] in H; try discriminate H
      |cbn [app] in H; injection H as _ H; peel pre H k]
  end.

Lemma category_reference (T : cstring) :
  Identifier T ->
  FollowedBy (str "references") (str "Category") (category_statement T) ->
  BeginsWith (str "Category") T.
Proof.
  intros I (pre & w & post & H & N & W).
  unfold category_statement in H.
  cbn [str list_ascii_of_string app] in H.
  peel pre H 57.
  - (* the occurrence at the references clause *)
    injection H as H.
    destruct w as [|w0 w]; [congruence|]. cbn [app] in H.
    injection H as _ H.
    destruct w as [|w1 w].
    + cbn [app] in H.
      do 8 (destruct T as [|? T]; [discriminate H|];
            cbn [app] in H; injection H as -> H).
      now exists T.
    + exfalso. inversion W as [|? ? _ W1]; subst.
      inversion W1 as [|? ? S1 _]; subst.
      destruct T as [|t T]; cbn [app] in H; injection H as E H.
      * rewrite <- E in S1. discriminate S1.
      * inversion I as [|? ? It _]; subst.
        apply word_not_space in It. congruence.
  - (* an occurrence after the references clause *)
    exfalso. destruct w as [|w0 w]; [congruence|].
    inversion W as [|? ? S0 _]; subst.
    assert (In0 : In w0 (T ++ [")"%char])).
    { rewrite H. apply in_or_app. right. do 10 right. now left. }
    apply in_app_or in In0 as [In0|[<-|[]]].
    + unfold Identifier in I. rewrite Forall_forall in I.
      apply I, word_not_space in In0. congruence.
    + discriminate S0.
Qed.

Lemma category_reference_conv (T' : cstring) :
  FollowedBy (str "references") (str "Category")
    (category_statement (str "Category" ++ T')).
Proof.
  exists (str "create table Category (id int, parent_id int, "),
    [chr_space], (T' ++ str ")").
  split; [|split; [discriminate|repeat constructor]].
  unfold category_statement. now rewrite <- app_assoc.
Qed.

(** C2, as amended.  The Recursive Dependency rule emits nothing when
    the extracted table name is empty, also on a statement that
    contains "create table".  On "create table Category (id int,
    parent_id int, references Category)" it emits exactly one
    diagnostic, titled "Recursive Dependency", of severity ERROR.  On
    the same statement with the references clause naming an identifier
    [T] it emits that one diagnostic when [T] begins with "Category"
    and nothing otherwise; for "Other" it emits nothing. *)
Theorem recursive_dependency_rule :
  (forall state s,
     GetTableName s = Returned [] ->
     CheckRecursiveDependency state s = Returned []) /\
  (IsCreateStatement (str "create table") = true /\
   GetTableName (str "create table") = Returned []) /\
  category_statement (str "Category") =
    str "create table Category (id int, parent_id int, references Category)" /\
  (forall state,
     exists d,
       CheckRecursiveDependency state (category_statement (str "Category"))
       = Returned [d] /\
       diag_title d = str "Recursive Dependency" /\
       diag_level d = LOG_LEVEL_ERROR) /\
  (forall state T,
     Identifier T ->
     exists ds,
       CheckRecursiveDependency state (category_statement T) = Returned ds /\
       (BeginsWith (str "Category") T ->
        exists d, ds = [d] /\
          diag_title d = str "Recursive Dependency" /\
          diag_level d = LOG_LEVEL_ERROR) /\
       (~ BeginsWith (str "Category") T -> ds = [])) /\
  (forall state,
     CheckRecursiveDependency state (category_statement (str "Other"))
     = Returned []).
Proof.
  assert (R : forall state T,
             exists ds,
               CheckRecursiveDependency state (category_statement T)
               = Returned ds /\
               (FollowedBy (str "references") (str "Category")
                  (category_statement T) ->
                exists d, ds = [d] /\
                  diag_title d = str "Recursive Dependency" /\
                  diag_level d = LOG_LEVEL_ERROR) /\
               (~ FollowedBy (str "references") (str "Category")
                    (category_statement T) -> ds = [])).
  { intros state T.
    rewrite (CheckRecursiveDependency_compiled state _ (str "Category")
               (category_table_name T));
      [|discriminate|repeat constructor].
    rewrite CheckPattern_match.
    pose proof (followed_by_search (str "references") (str "Category")
                  (category_statement T)) as F.
    destruct (regex_search _ (category_statement T));
      eexists; (split; [reflexivity|]).
    - split; [|intros H; exfalso; apply H; now apply F].
      intros _. eexists. split; [reflexivity|]. now split.
    - split; [|reflexivity].
      intros M. apply F in M. discriminate. }
  split.
  { intros state s G. unfold CheckRecursiveDependency. now rewrite G. }
  split; [split; vm_compute; reflexivity|].
  split; [reflexivity|].
  split.
  { intros state. destruct (R state (str "Category")) as (ds & E & Y & _).
    destruct Y as (d & -> & Y); [apply (category_reference_conv [])|].
    now exists d. }
  assert (Q : forall state T,
             Identifier T ->
             exists ds,
               CheckRecursiveDependency state (category_statement T)
               = Returned ds /\
               (BeginsWith (str "Category") T ->
                exists d, ds = [d] /\
                  diag_title d = str "Recursive Dependency" /\
                  diag_level d = LOG_LEVEL_ERROR) /\
               (~ BeginsWith (str "Category") T -> ds = [])).
  { intros state T I. destruct (R state T) as (ds & E & Y & N).
    exists ds. split; [exact E|]. split.
    + intros [T' ->]. apply Y, category_reference_conv.
    + intros B. apply N. intros F. apply B.
      now apply category_reference. }
  split; [exact Q|].
  intros state.
  destruct (Q state (str "Other")) as (ds & E & _ & N);
    [repeat constructor|].
  rewrite E. f_equal. apply N. intros [t B]. discriminate B.
Qed.

Lemma recursive_dependency_rule_witness :
  GetTableName (str "create table") = Returned [] /\
  CheckRecursiveDependency all_enabled (str "create table") = Returned [] /\
  Identifier (str "Category_2") /\
  BeginsWith (str "Category") (str "Category_2") /\
  exists d,
    CheckRecursiveDependency all_enabled
      (category_statement (str "Category_2")) = Returned [d].
Proof.
  destruct recursive_dependency_rule as (E & (_ & G) & _ & _ & Q & _).
  assert (I : Identifier (str "Category_2")) by (repeat constructor).
  assert (B : BeginsWith (str "Category") (str "Category_2"))
    by (now exists (str "_2")).
  split; [exact G|]. split; [exact (E all_enabled _ G)|].
  split; [exact I|]. split; [exact B|].
  destruct (Q all_enabled _ I) as (ds & C & Y & _).
  destruct (Y B) as (d & D & _). exists d. now rewrite <- D.
Defined.

(** C2, as stated, fails: "Category2" is a different table, and the
    rule still fires, because the pattern ends with the table name. *)
Lemma longer_table_name_still_fires :
  str "Category2" <> str "Category" /\
  exists d,
    CheckRecursiveDependency all_enabled
      (str "create table Category (id int, parent_id int, references Category2)")
    = Returned [d] /\
    diag_title d = str "Recursive Dependency".
Proof.
  split; [discriminate|].
  eexists. split; [vm_compute; reflexivity|reflexivity].
Qed.

(* ================================================================= *)
(** ** Further properties of [list.cpp] *)

(* ----------------------------------------------------------------- *)
(** *** [IsCreateStatement] and [GetTableName] *)

Lemma created (s : cstring) :
  Substring (str "create table") s -> IsCreateStatement s = true.
Proof.
  intros H. unfold IsCreateStatement.
  destruct (find s (str "create table")) eqn:F; [reflexivity|].
  now apply find_none in F.
Qed.

(** X1.  [IsCreateStatement] answers true exactly on the statements
    whose text contains "create table", wherever it stands and whatever
    surrounds it. *)
Theorem IsCreateStatement_iff (s : cstring) :
  IsCreateStatement s = true <-> Substring (str "create table") s.
Proof.
  split; [|apply created].
  unfold IsCreateStatement.
  destruct (find s (str "create table")) as [i|] eqn:F; [|discriminate].
  intros _. apply find_some in F as [F _]. eexists _, _. exact F.
Qed.

Lemma first_token_tail_norm (y : cstring) :
  Spec.first_token Spec.space_only (tail_norm y) =
  Spec.first_token Spec.space_only y.
Proof.
  induction y as [|a y IH]; [reflexivity|].
  destruct (Spec.space_only a) eqn:A.
  - apply Ascii.eqb_eq in A. subst a.
    destruct (decompose y) as (n & t & -> & T).
    change (chr_space :: spaces n ++ t) with (spaces (S n) ++ t).
    destruct t as [|b t].
    + rewrite app_nil_r, tail_norm_spaces. reflexivity.
    + rewrite tail_norm_run by exact T. reflexivity.
  - rewrite tail_norm_cons by exact A. simpl. rewrite A. now f_equal.
Qed.

Lemma token_split (y : cstring) :
  exists x,
    y = Spec.first_token Spec.space_only y ++ x /\
    NoSpace (Spec.first_token Spec.space_only y) /\
    (x = [] \/ head_sp x = true).
Proof.
  induction y as [|a y (x & E & N & X)].
  - exists []. repeat split; [constructor|now left].
  - simpl. destruct (Spec.space_only a) eqn:A.
    + exists (a :: y). repeat split; [constructor|right; exact A].
    + exists x. split; [simpl; now f_equal|]. split; [|exact X].
      constructor; assumption.
Qed.

Lemma GetTableName_token_of_rest (s : cstring) (i : nat) :
  find s (str "create table") = Some i ->
  GetTableName s =
  Returned
    (Spec.first_token Spec.space_only
       (Spec.trim_left Spec.space_only (skipn (i + 12) s))).
Proof.
  intros F. rewrite GetTableName_extractTableName.
  unfold Spec.extractTableName. rewrite after_first_find, F.
  cbn [option_map]. unfold substr_from.
  change (length (str "create table")) with 12.
  f_equal. apply first_token_tail_norm.
Qed.

(** X2.  On a statement that contains "create table", the table name
    is the run of non-space characters that follows the first
    occurrence of the keyword and the spaces after it: what follows the
    keyword is [n] spaces, the name [t], and a remainder [x] that is
    empty or begins with a space. *)
Theorem GetTableName_is_next_token (s : cstring) (i : nat) :
  find s (str "create table") = Some i ->
  exists n t x,
    skipn (i + 12) s = spaces n ++ t ++ x /\
    head_sp (t ++ x) = false /\
    NoSpace t /\
    (x = [] \/ head_sp x = true) /\
    GetTableName s = Returned t.
Proof.
  intros F. rewrite (GetTableName_token_of_rest s i F).
  destruct (decompose (skipn (i + 12) s)) as (n & y & -> & Y).
  rewrite trim_left_spaces by exact Y.
  destruct (token_split y) as (x & E & N & X).
  exists n, (Spec.first_token Spec.space_only y), x.
  rewrite <- E. repeat split; assumption.
Qed.

Lemma GetTableName_is_next_token_witness :
  find (str "drop x; create table   Users   (id int)") (str "create table")
  = Some 8 /\
  exists n t x,
    skipn (8 + 12) (str "drop x; create table   Users   (id int)")
    = spaces n ++ t ++ x /\
    head_sp (t ++ x) = false /\
    NoSpace t /\
    (x = [] \/ head_sp x = true) /\
    GetTableName (str "drop x; create table   Users   (id int)") = Returned t.
Proof.
  assert (F : find (str "drop x; create table   Users   (id int)")
                (str "create table") = Some 8) by reflexivity.
  split; [exact F|].
  exact (GetTableName_is_next_token _ 8 F).
Defined.

Lemma first_token_empty (y : cstring) :
  head_sp y = false -> Spec.first_token Spec.space_only y = [] -> y = [].
Proof.
  destruct y as [|a y]; [reflexivity|]. simpl. unfold Spec.space_only.
  intros ->. discriminate.
Qed.

(** X3.  On a statement that contains "create table", the table name
    is empty exactly when nothing but spaces follows the first
    occurrence of the keyword; the statement is then a creation
    statement on which the Recursive Dependency rule returns without a
    diagnostic. *)
Theorem only_spaces_after_keyword (state : Configuration) (s : cstring)
  (i : nat) :
  find s (str "create table") = Some i ->
  ((exists n, skipn (i + 12) s = spaces n) <-> GetTableName s = Returned []) /\
  ((exists n, skipn (i + 12) s = spaces n) ->
   IsCreateStatement s = true /\
   CheckRecursiveDependency state s = Returned []).
Proof.
  intros F.
  assert (E : (exists n, skipn (i + 12) s = spaces n) <->
              GetTableName s = Returned []).
  { rewrite (GetTableName_token_of_rest s i F). split.
    - intros [n R]. rewrite R, <- (app_nil_r (spaces n)).
      now rewrite trim_left_spaces.
    - destruct (decompose (skipn (i + 12) s)) as (n & y & -> & Y).
      rewrite trim_left_spaces by exact Y. intros [= G].
      apply (first_token_empty y Y) in G. subst y.
      exists n. apply app_nil_r. }
  split; [exact E|]. intros R. apply E in R.
  split; [unfold IsCreateStatement; now rewrite F|].
  unfold CheckRecursiveDependency. now rewrite R.
Qed.

Lemma only_spaces_after_keyword_witness :
  find (str "create table   ") (str "create table") = Some 0 /\
  (exists n, skipn (0 + 12) (str "create table   ") = spaces n) /\
  IsCreateStatement (str "create table   ") = true /\
  CheckRecursiveDependency all_enabled (str "create table   ") = Returned [].
Proof.
  assert (F : find (str "create table   ") (str "create table") = Some 0)
    by reflexivity.
  assert (R : exists n, skipn (0 + 12) (str "create table   ") = spaces n)
    by (now exists 3).
  split; [exact F|]. split; [exact R|].
  exact (proj2 (only_spaces_after_keyword all_enabled _ 0 F) R).
Defined.

(* ----------------------------------------------------------------- *)
(** *** Letter case *)

Lemma lower_in (a : ascii) (s : cstring) :
  is_lower a = true -> In a s -> ~ NoLower s.
Proof.
  intros L I N. unfold NoLower in N. rewrite Forall_forall in N.
  apply N in I. congruence.
Qed.

Lemma substring_in (a : ascii) (w s : cstring) :
  In a w -> Substring w s -> In a s.
Proof.
  intros I (pre & post & ->). apply in_or_app. right.
  apply in_or_app. now left.
Qed.

Lemma followed_by_in (a : ascii) (x y s : cstring) :
  In a x -> FollowedBy x y s -> In a s.
Proof.
  intros I (pre & w & post & -> & _). apply in_or_app. right.
  apply in_or_app. now left.
Qed.

Lemma SelectStar_pattern :
  std_regex (str "(select\s+\*)") =
  Returned (Seq (Grp 1 (phrase (str "select") (str "*"))) Eps).
Proof. vm_compute. reflexivity. Qed.

Lemma CheckSelectStar_compiled (state : Configuration) (s : cstring) :
  CheckSelectStar state s =
  Returned
    (CheckPattern state s
       (Seq (Grp 1 (phrase (str "select") (str "*"))) Eps)
       LOG_LEVEL_ERROR PATTERN_TYPE_QUERY (str "SELECT *")
       (Messages.SelectStar1 ++ [chr_newline] ++ Messages.SelectStar2 ++
        [chr_newline] ++ Messages.SelectStar3) true).
Proof.
  unfold CheckSelectStar. now rewrite SelectStar_pattern.
Qed.

(** X4.  The rules look for lower-case keywords only: on a statement
    without any lower-case letter none of the six rule functions emits
    a diagnostic. *)
Theorem upper_case_statement_is_never_flagged (state : Configuration)
  (s : cstring) :
  NoLower s ->
  CheckSelectStar state s = Returned [] /\
  CheckMultiValuedAttribute state s = Returned [] /\
  CheckRecursiveDependency state s = Returned [] /\
  CheckPrimaryKeyExists state s = Returned [] /\
  CheckGenericPrimaryKey state s = Returned [] /\
  CheckForeignKeyExists state s = Returned [].
Proof.
  intros N.
  assert (C : ~ Substring (str "create table") s).
  { intros H. apply (lower_in "c"%char s); [reflexivity| |exact N].
    apply (substring_in "c"%char (str "create table") s); [now left|exact H]. }
  destruct (not_created s C) as [HC HT].
  split.
  { rewrite CheckSelectStar_compiled, CheckPattern_match.
    destruct (regex_search _ s) eqn:E; [|reflexivity].
    exfalso. apply search_phrase in E.
    apply (lower_in "s"%char s); [reflexivity| |exact N].
    apply (followed_by_in "s"%char (str "select") (str "*") s);
      [now left|exact E]. }
  split.
  { unfold CheckMultiValuedAttribute.
    rewrite MultiValuedAttribute_pattern. cbn [bind].
    rewrite CheckPattern_match.
    destruct (regex_search _ s) eqn:E; [|reflexivity].
    exfalso. apply MultiValuedAttribute_found in E.
    apply (lower_in "i"%char s); [reflexivity| |exact N].
    destruct E as [E|[E|E]];
      (eapply (followed_by_in "i"%char (str "id")); [now left|exact E]). }
  unfold CheckPrimaryKeyExists, CheckGenericPrimaryKey,
    CheckForeignKeyExists, CheckRecursiveDependency.
  rewrite HC, HT. repeat split; reflexivity.
Qed.

Lemma upper_case_statement_is_never_flagged_witness :
  NoLower (str "SELECT * FROM USERS") /\
  CheckSelectStar all_enabled (str "SELECT * FROM USERS") = Returned [] /\
  CheckMultiValuedAttribute all_enabled (str "SELECT * FROM USERS")
  = Returned [] /\
  CheckRecursiveDependency all_enabled (str "SELECT * FROM USERS")
  = Returned [] /\
  CheckPrimaryKeyExists all_enabled (str "SELECT * FROM USERS") = Returned [] /\
  CheckGenericPrimaryKey all_enabled (str "SELECT * FROM USERS")
  = Returned [] /\
  CheckForeignKeyExists all_enabled (str "SELECT * FROM USERS") = Returned [].
Proof.
  assert (N : NoLower (str "SELECT * FROM USERS")) by (repeat constructor).
  split; [exact N|].
  exact (upper_case_statement_is_never_flagged all_enabled _ N).
Defined.

(* ----------------------------------------------------------------- *)
(** *** What makes each rule fire *)

(** X6.  The SELECT * rule has no gate: on every statement that
    contains "select", one or more whitespace characters and "*", it
    emits exactly one diagnostic, titled "SELECT *", of severity ERROR
    and category QUERY; on every other statement it emits none. *)
Theorem select_star_rule (state : Configuration) (s : cstring) :
  exists ds,
    CheckSelectStar state s = Returned ds /\
    (FollowedBy (str "select") (str "*") s ->
     exists d, ds = [d] /\
       diag_title d = str "SELECT *" /\
       diag_level d = LOG_LEVEL_ERROR /\
       diag_type d = PATTERN_TYPE_QUERY) /\
    (~ FollowedBy (str "select") (str "*") s -> ds = []).
Proof.
  rewrite CheckSelectStar_compiled, CheckPattern_match.
  pose proof (search_phrase 1 (str "select") (str "*") s) as F.
  destruct (regex_search _ s); eexists; (split; [reflexivity|]).
  - split; [|intros H; exfalso; apply H; now apply F].
    intros _. eexists. now repeat split.
  - split; [|reflexivity]. intros M. apply F in M. discriminate.
Qed.

Lemma search_literal (i : nat) (w s : cstring) :
  regex_search (Seq (Grp i (lits w Eps)) Eps) s = true <-> Substring w s.
Proof.
  rewrite regex_search_iff. unfold Substring. split.
  - intros (pre & b & e & -> & M).
    apply matches_grp_seq, matches_lits in M as (s1 & -> & M).
    apply matches_Eps in M as ->. now exists pre, e.
  - intros (pre & post & ->). exists pre, (w ++ post), post.
    split; [reflexivity|]. apply matches_grp_seq, matches_lits.
    exists post. split; [reflexivity|constructor].
Qed.

Lemma CheckPattern_absent (state : Configuration) (s : cstring) (p : regex)
  (lvl : LogLevel) (ty : PatternType) (t m : cstring) :
  CheckPattern state s p lvl ty t m false =
  if regex_search p s then []
  else [ {| diag_title := t; diag_level := lvl; diag_type := ty;
            diag_message := m; diag_statement := s |} ].
Proof. unfold CheckPattern. now destruct (regex_search p s). Qed.

Lemma PrimaryKeyExists_pattern :
  std_regex (str "(primary key)") =
  Returned (Seq (Grp 1 (lits (str "primary key") Eps)) Eps).
Proof. vm_compute. reflexivity. Qed.

Lemma ForeignKeyExists_pattern :
  std_regex (str "(foreign key)") =
  Returned (Seq (Grp 1 (lits (str "foreign key") Eps)) Eps).
Proof. vm_compute. reflexivity. Qed.

(** X7.  On a statement that contains "create table", the Primary Key
    Exists rule emits exactly one diagnostic, of severity WARN and
    category CREATION, when the text "primary key" occurs nowhere in
    the statement, and none when it occurs. *)
Theorem primary_key_exists_rule (state : Configuration) (s : cstring) :
  Substring (str "create table") s ->
  exists ds,
    CheckPrimaryKeyExists state s = Returned ds /\
    (Substring (str "primary key") s -> ds = []) /\
    (~ Substring (str "primary key") s ->
     exists d, ds = [d] /\
       diag_title d = str "Primary Key Exists" /\
       diag_level d = LOG_LEVEL_WARN /\
       diag_type d = PATTERN_TYPE_CREATION).
Proof.
  intros C. apply created in C.
  unfold CheckPrimaryKeyExists. rewrite C. cbn [Bool.eqb].
  rewrite PrimaryKeyExists_pattern. cbn [bind].
  rewrite CheckPattern_absent.
  pose proof (search_literal 1 (str "primary key") s) as F.
  destruct (regex_search _ s); eexists; (split; [reflexivity|]).
  - split; [reflexivity|]. intros H. exfalso. apply H. now apply F.
  - split; [intros H; apply F in H; discriminate|].
    intros _. eexists. now repeat split.
Qed.

Lemma primary_key_exists_rule_witness :
  Substring (str "create table") (str "create table t (a int primary key)") /\
  exists ds,
    CheckPrimaryKeyExists all_enabled
      (str "create table t (a int primary key)") = Returned ds /\
    (Substring (str "primary key") (str "create table t (a int primary key)")
     -> ds = []) /\
    (~ Substring (str "primary key")
         (str "create table t (a int primary key)") ->
     exists d, ds = [d] /\
       diag_title d = str "Primary Key Exists" /\
       diag_level d = LOG_LEVEL_WARN /\
       diag_type d = PATTERN_TYPE_CREATION).
Proof.
  assert (C : Substring (str "create table")
                (str "create table t (a int primary key)"))
    by (now exists [], (str " t (a int primary key)")).
  split; [exact C|].
  exact (primary_key_exists_rule all_enabled _ C).
Defined.

(** X8.  On a statement that contains "create table", the Foreign Key
    Exists rule emits exactly one diagnostic, of severity WARN and
    category CREATION, when the text "foreign key" occurs nowhere in
    the statement, and none when it occurs. *)
Theorem foreign_key_exists_rule (state : Configuration) (s : cstring) :
  Substring (str "create table") s ->
  exists ds,
    CheckForeignKeyExists state s = Returned ds /\
    (Substring (str "foreign key") s -> ds = []) /\
    (~ Substring (str "foreign key") s ->
     exists d, ds = [d] /\
       diag_title d = str "Foreign Key Exists" /\
       diag_level d = LOG_LEVEL_WARN /\
       diag_type d = PATTERN_TYPE_CREATION).
Proof.
  intros C. apply created in C.
  unfold CheckForeignKeyExists. rewrite C. cbn [Bool.eqb].
  rewrite ForeignKeyExists_pattern. cbn [bind].
  rewrite CheckPattern_absent.
  pose proof (search_literal 1 (str "foreign key") s) as F.
  destruct (regex_search _ s); eexists; (split; [reflexivity|]).
  - split; [reflexivity|]. intros H. exfalso. apply H. now apply F.
  - split; [intros H; apply F in H; discriminate|].
    intros _. eexists. now repeat split.
Qed.

Lemma foreign_key_exists_rule_witness :
  Substring (str "create table") (str "create table t (a int)") /\
  exists ds,
    CheckForeignKeyExists all_enabled (str "create table t (a int)")
    = Returned ds /\
    (Substring (str "foreign key") (str "create table t (a int)") ->
     ds = []) /\
    (~ Substring (str "foreign key") (str "create table t (a int)") ->
     exists d, ds = [d] /\
       diag_title d = str "Foreign Key Exists" /\
       diag_level d = LOG_LEVEL_WARN /\
       diag_type d = PATTERN_TYPE_CREATION).
Proof.
  assert (C : Substring (str "create table") (str "create table t (a int)"))
    by (now exists [], (str " t (a int)")).
  split; [exact C|].
  exact (foreign_key_exists_rule all_enabled _ C).
Defined.

Lemma GenericPrimaryKey_pattern :
  std_regex (str "(\s+[\(]?id\s+)|(,id\s+)|(\s+id\s+serial)") =
  Returned GenericPrimaryKey_regex.
Proof. vm_compute. reflexivity. Qed.

Lemma matches_Seq (n0 : nat) (r1 r2 : regex) (b e : cstring) :
  matches n0 (Seq r1 r2) b e <->
  exists m, matches n0 r1 b m /\ matches n0 r2 m e.
Proof.
  split.
  - intros H. inversion H; subst. eexists. split; eassumption.
  - intros (m & H1 & H2). econstructor; eassumption.
Qed.

Lemma matches_WSplus_Eps (n0 : nat) (b e : cstring) :
  matches n0 (Seq WSplus Eps) b e <->
  exists w, w <> [] /\ Whitespace w /\ b = w ++ e.
Proof.
  rewrite matches_Seq. split.
  - intros (m & H1 & H2). apply matches_Eps in H2 as <-.
    now apply matches_WSplus in H1.
  - intros H. exists e. split; [now apply matches_WSplus|constructor].
Qed.

Lemma matches_OptParen (n0 : nat) (b e : cstring) :
  matches n0 OptParen b e <-> b = "("%char :: e \/ b = e.
Proof.
  unfold OptParen. rewrite matches_Alt, matches_Eps. split.
  - intros [H|H]; [left|now right].
    inversion H as [|cs a t E| | | | | | | |]; subst.
    simpl in E. rewrite orb_false_r in E. apply Ascii.eqb_eq in E. now subst.
  - intros [->| ->]; [left|now right]. now constructor.
Qed.

Lemma whitespace_last (w : cstring) :
  w <> [] -> Whitespace w ->
  exists w' a, w = w' ++ [a] /\ is_space a = true.
Proof.
  intros N W. destruct (exists_last N) as (w' & a & ->).
  exists w', a. split; [reflexivity|].
  apply Forall_app in W as [_ W]. now inversion W.
Qed.

Lemma whitespace_first (w : cstring) :
  w <> [] -> Whitespace w ->
  exists a w', w = a :: w' /\ is_space a = true.
Proof.
  intros N W. destruct w as [|a w]; [congruence|].
  exists a, w. split; [reflexivity|]. now inversion W.
Qed.

Lemma whitespace_one (a : ascii) :
  is_space a = true -> [a] <> [] /\ Whitespace [a].
Proof. intros A. split; [discriminate|]. now repeat constructor. Qed.

Lemma GenericPrimaryKey_found (s : cstring) :
  regex_search GenericPrimaryKey_regex s = true <-> GenericId s.
Proof.
  unfold GenericPrimaryKey_regex.
  rewrite !regex_search_Alt, !orb_true_iff, !regex_search_iff. split.
  - intros [(pre & b & e & -> & M)|[(pre & b & e & -> & M)
                                    |(pre & b & e & -> & M)]].
    + apply matches_grp_seq, matches_Seq in M as (m1 & M1 & M).
      apply matches_WSplus in M1 as (w1 & N1 & W1 & ->).
      apply matches_Seq in M as (m2 & M2 & M).
      apply matches_lits in M as (m3 & -> & M).
      apply matches_WSplus_Eps in M as (w2 & N2 & W2 & ->).
      destruct (whitespace_last w1 N1 W1) as (w1' & a & -> & A).
      destruct (whitespace_first w2 N2 W2) as (b & w2' & -> & B).
      apply matches_OptParen in M2 as [-> | ->].
      * right. left. exists (pre ++ w1'), a, b, (w2' ++ e).
        repeat split; try assumption.
        rewrite <- !app_assoc. reflexivity.
      * left. exists (pre ++ w1'), a, b, (w2' ++ e).
        repeat split; try assumption.
        rewrite <- !app_assoc. reflexivity.
    + apply matches_grp_seq, matches_lits in M as (m & -> & M).
      apply matches_WSplus_Eps in M as (w2 & N2 & W2 & ->).
      destruct (whitespace_first w2 N2 W2) as (b & w2' & -> & B).
      right. right. exists pre, b, (w2' ++ e). split; [exact B|reflexivity].
    + apply matches_grp_seq, matches_Seq in M as (m1 & M1 & M).
      apply matches_WSplus in M1 as (w1 & N1 & W1 & ->).
      apply matches_phrase in M as (w2 & N2 & W2 & ->).
      destruct (whitespace_last w1 N1 W1) as (w1' & a & -> & A).
      destruct (whitespace_first w2 N2 W2) as (b & w2' & -> & B).
      left. exists (pre ++ w1'), a, b, (w2' ++ str "serial" ++ e).
      repeat split; try assumption.
      rewrite <- !app_assoc. reflexivity.
  - intros [(pre & a & b & post & A & B & ->)
           |[(pre & a & b & post & A & B & ->)|(pre & b & post & B & ->)]].
    + left. exists pre, (a :: str "id" ++ b :: post), post.
      split; [reflexivity|].
      apply matches_grp_seq, matches_Seq. exists (str "id" ++ b :: post).
      split; [apply matches_WSplus; exists [a];
              destruct (whitespace_one a A); now repeat split|].
      apply matches_Seq. exists (str "id" ++ b :: post).
      split; [apply matches_OptParen; now right|].
      apply matches_lits. exists (b :: post). split; [reflexivity|].
      apply matches_WSplus_Eps. exists [b].
      destruct (whitespace_one b B); now repeat split.
    + left. exists pre, (a :: str "(id" ++ b :: post), post.
      split; [reflexivity|].
      apply matches_grp_seq, matches_Seq. exists (str "(id" ++ b :: post).
      split; [apply matches_WSplus; exists [a];
              destruct (whitespace_one a A); now repeat split|].
      apply matches_Seq. exists (str "id" ++ b :: post).
      split; [apply matches_OptParen; now left|].
      apply matches_lits. exists (b :: post). split; [reflexivity|].
      apply matches_WSplus_Eps. exists [b].
      destruct (whitespace_one b B); now repeat split.
    + right. left. exists pre, (str ",id" ++ b :: post), post.
      split; [reflexivity|].
      apply matches_grp_seq, matches_lits. exists (b :: post).
      split; [reflexivity|].
      apply matches_WSplus_Eps. exists [b].
      destruct (whitespace_one b B); now repeat split.
Qed.

(** X9.  On a statement that contains "create table", the Generic
    Primary Key rule emits exactly one diagnostic, of severity ERROR
    and category CREATION, when the statement holds "id" followed by a
    whitespace character and preceded by a whitespace character, by
    "(" after a whitespace character, or by a comma; otherwise it emits
    none.  The alternative of the pattern that ends in "serial" adds
    nothing to this. *)
Theorem generic_primary_key_rule (state : Configuration) (s : cstring) :
  Substring (str "create table") s ->
  exists ds,
    CheckGenericPrimaryKey state s = Returned ds /\
    (GenericId s ->
     exists d, ds = [d] /\
       diag_title d = str "Generic Primary Key" /\
       diag_level d = LOG_LEVEL_ERROR /\
       diag_type d = PATTERN_TYPE_CREATION) /\
    (~ GenericId s -> ds = []).
Proof.
  intros C. apply created in C.
  unfold CheckGenericPrimaryKey. rewrite C. cbn [Bool.eqb].
  rewrite GenericPrimaryKey_pattern. cbn [bind].
  rewrite CheckPattern_match.
  pose proof (GenericPrimaryKey_found s) as F.
  destruct (regex_search _ s); eexists; (split; [reflexivity|]).
  - split; [|intros H; exfalso; apply H; now apply F].
    intros _. eexists. now repeat split.
  - split; [|reflexivity]. intros M. apply F in M. discriminate.
Qed.

Lemma generic_primary_key_rule_witness :
  Substring (str "create table") (str "create table t (id int)") /\
  GenericId (str "create table t (id int)") /\
  exists d,
    CheckGenericPrimaryKey all_enabled (str "create table t (id int)")
    = Returned [d] /\
    diag_level d = LOG_LEVEL_ERROR.
Proof.
  assert (C : Substring (str "create table") (str "create table t (id int)"))
    by (now exists [], (str " t (id int)")).
  assert (G : GenericId (str "create table t (id int)")).
  { right. left.
    exists (str "create table t"), chr_space, chr_space, (str "int)").
    now repeat split. }
  split; [exact C|]. split; [exact G|].
  destruct (generic_primary_key_rule all_enabled _ C) as (ds & E & Y & _).
  destruct (Y G) as (d & D & _ & L & _).
  exists d. rewrite <- D. now split.
Defined.

(* ----------------------------------------------------------------- *)
(** *** A table name followed directly by its column list *)

Lemma word_plain (a : ascii) : is_word a = true -> is_syntax_char a = false.
Proof.
  destruct a as [[] [] [] [] [] [] [] []]; intros H;
    try reflexivity; vm_compute in H; discriminate.
Qed.

Lemma word_no_space (a : ascii) :
  is_word a = true -> Ascii.eqb a chr_space = false.
Proof.
  destruct a as [[] [] [] [] [] [] [] []]; intros H;
    try reflexivity; vm_compute in H; discriminate.
Qed.

Lemma Identifier_Plain (w : cstring) : Identifier w -> Plain w.
Proof.
  intros I. eapply Forall_impl; [|exact I]. exact word_plain.
Qed.

Lemma Identifier_NoSpace (w : cstring) : Identifier w -> NoSpace w.
Proof.
  intros I. eapply Forall_impl; [|exact I]. exact word_no_space.
Qed.

Lemma alternative_step (f : nat) (a : ascii) (p : cstring) (g : nat) :
  ch a "|" || ch a ")" = false ->
  parse_alternative (S f) (a :: p) g =
  match parse_term f (a :: p) g with
  | POk t rest g1 =>
      match parse_alternative f rest g1 with
      | POk r rest2 g2 => POk (Seq t r) rest2 g2
      | e => e
      end
  | e => e
  end.
Proof. intros A. cbn [parse_alternative]. now rewrite A. Qed.

Lemma disjunction_end (f : nat) (p : cstring) (g g1 : nat) (r : regex) :
  parse_alternative f p g = POk r [] g1 ->
  parse_disjunction (S f) p g = POk r [] g1.
Proof. intros A. cbn [parse_disjunction]. now rewrite A. Qed.

Lemma disjunction_error (f : nat) (p : cstring) (g : nat) :
  parse_alternative f p g = PError ->
  parse_disjunction (S f) p g = PError.
Proof. intros A. cbn [parse_disjunction]. now rewrite A. Qed.

Lemma term_group_step (f : nat) (a : ascii) (p : cstring) (g : nat) :
  ch a "?" = false ->
  parse_term (S f) ("("%char :: a :: p) g =
  match parse_disjunction f (a :: p) (S g) with
  | POk r rest g1 =>
      match rest with
      | b :: rest' =>
          if ch b ")" then quantify (Grp g r) rest' g1 else PError
      | [] => PError
      end
  | e => e
  end.
Proof.
  intros A.
  change (parse_term (S f) ("("%char :: a :: p) g)
    with (if ch a "?"
          then match p with
               | [] => PError
               | m :: p3 =>
                   if ch m ":" then
                     match parse_disjunction f p3 g with
                     | POk r rest g1 =>
                         match rest with
                         | b :: rest' =>
                             if ch b ")" then quantify r rest' g1 else PError
                         | [] => PError
                         end
                     | e => e
                     end
                   else PUnsupported
               end
          else match parse_disjunction f (a :: p) (S g) with
               | POk r rest g1 =>
                   match rest with
                   | b :: rest' =>
                       if ch b ")" then quantify (Grp g r) rest' g1
                       else PError
                   | [] => PError
                   end
               | e => e
               end).
  now rewrite A.
Qed.

(** A group that holds a plain text, at the end of the pattern. *)
Lemma term_plain_group (c : cstring) (g : nat) :
  Plain c ->
  forall f, 3 + length c <= f ->
    parse_term f ("("%char :: c ++ str ")") g =
    POk (Grp g (lits c Eps)) [] (S g).
Proof.
  intros C f L.
  assert (A : forall f, 1 + length c <= f ->
            parse_alternative f (c ++ str ")") (S g) =
            POk (lits c Eps) (str ")") (S g)).
  { apply alt_plain; [exact C|reflexivity|lia|].
    intros [|f'] L'; [lia|reflexivity]. }
  destruct f as [|[|f]]; try (simpl in L; lia).
  assert (D : parse_disjunction (S f) (c ++ str ")") (S g) =
              POk (lits c Eps) (str ")") (S g)).
  { apply disjunction_single, A. simpl in L. lia. }
  destruct c as [|a c].
  - change ("("%char :: [] ++ str ")") with ("("%char :: ")"%char :: []).
    rewrite term_group_step by reflexivity.
    change ([] ++ str ")") with (")"%char :: []) in D. rewrite D.
    reflexivity.
  - cbn [app]. rewrite term_group_step.
    + cbn [app] in D. rewrite D. reflexivity.
    + inversion C as [|? ? Ha _]; subst.
      unfold is_syntax_char in Ha. split_orb. assumption.
Qed.

(** The pattern of the Recursive Dependency rule is ill-formed when the
    table name holds an opening parenthesis between two plain texts. *)
Lemma recursive_dependency_pattern_unbalanced (T c : cstring) :
  Plain T -> Plain c ->
  std_regex (str "(references\s+" ++ (T ++ "("%char :: c) ++ str ")") =
  RegexError.
Proof.
  intros PT Pc.
  assert (B3 : forall f, 5 + length c <= f ->
            parse_alternative f ("("%char :: c ++ str ")") 2 =
            POk (Seq (Grp 2 (lits c Eps)) Eps) [] 3).
  { intros [|[|f]] L; try (simpl in L; lia).
    rewrite alternative_step by reflexivity.
    rewrite (term_plain_group c 2 Pc) by (simpl in L; lia).
    reflexivity. }
  assert (B4 : forall f, 5 + length c + length T <= f ->
            parse_alternative f (T ++ "("%char :: c ++ str ")") 2 =
            POk (lits T (Seq (Grp 2 (lits c Eps)) Eps)) [] 3).
  { apply alt_plain; [exact PT|reflexivity|lia|exact B3]. }
  assert (B5 : forall f, 7 + length c + length T <= f ->
            parse_alternative f
              (str "\s+" ++ T ++ "("%char :: c ++ str ")") 2 =
            POk (Seq WSplus (lits T (Seq (Grp 2 (lits c Eps)) Eps))) [] 3).
  { intros [|[|f]] L; try (simpl in L; lia).
    change (str "\s+" ++ T ++ "("%char :: c ++ str ")")
      with ("\"%char :: str "s+" ++ T ++ "("%char :: c ++ str ")").
    rewrite alternative_step by reflexivity.
    change ("\"%char :: str "s+" ++ T ++ "("%char :: c ++ str ")")
      with (str "\s+" ++ T ++ "("%char :: c ++ str ")").
    rewrite term_ws_plus by (apply no_quant_app; [exact PT|reflexivity]).
    rewrite B4 by (simpl in L; lia). reflexivity. }
  assert (B6 : forall f, 17 + length c + length T <= f ->
            parse_alternative f
              (str "references" ++ str "\s+" ++ T ++ "("%char :: c ++ str ")")
              2 =
            POk (lits (str "references")
                   (Seq WSplus (lits T (Seq (Grp 2 (lits c Eps)) Eps))))
              [] 3).
  { intros f L.
    apply (alt_plain (str "references") _ 2 (7 + length c + length T));
      [repeat constructor|reflexivity|lia|exact B5|simpl; lia]. }
  assert (B8 : forall f, 19 + length c + length T <= f ->
            parse_term f
              (str "(references\s+" ++ (T ++ "("%char :: c) ++ str ")") 1 =
            PError).
  { intros [|[|f]] L; try (simpl in L; lia).
    rewrite <- app_assoc.
    change (str "(references\s+" ++ T ++ ("("%char :: c) ++ str ")")
      with ("("%char :: "r"%char ::
            str "eferences\s+" ++ T ++ "("%char :: c ++ str ")").
    rewrite term_group_step by reflexivity.
    change ("r"%char :: str "eferences\s+" ++ T ++ "("%char :: c ++ str ")")
      with (str "references" ++ str "\s+" ++ T ++ "("%char :: c ++ str ")").
    rewrite (disjunction_end _ _ _ _ _ (B6 f ltac:(simpl in L; lia))).
    reflexivity. }
  unfold std_regex, regex_compile, parse_fuel.
  set (p := str "(references\s+" ++ (T ++ "("%char :: c) ++ str ")").
  assert (Lp : length p = 16 + length T + length c).
  { unfold p. rewrite !length_app. simpl. lia. }
  replace (3 * length p + 3)
    with (S (S (19 + length c + length T + (2 * length c + 2 * length T + 30))))
    by lia.
  assert (E : parse_disjunction
                (S (S (19 + length c + length T +
                       (2 * length c + 2 * length T + 30)))) p 1 = PError).
  { apply disjunction_error.
    unfold p at 1. 
    change (str "(references\s+" ++ (T ++ "("%char :: c) ++ str ")")
      with ("("%char :: str "references\s+" ++ (T ++ "("%char :: c) ++ str ")").
    rewrite alternative_step by reflexivity.
    change ("("%char :: str "references\s+" ++ (T ++ "("%char :: c) ++ str ")")
      with (str "(references\s+" ++ (T ++ "("%char :: c) ++ str ")").
    rewrite B8 by lia. reflexivity. }
  now rewrite E.
Qed.

Lemma first_token_app (w rest : cstring) :
  NoSpace w ->
  Spec.first_token Spec.space_only (w ++ chr_space :: rest) = w.
Proof.
  intros N. induction N as [|a w A N IH]; [reflexivity|].
  cbn [app Spec.first_token]. unfold Spec.space_only at 1.
  rewrite A. now f_equal.
Qed.

Lemma unspaced_table_name (n : nat) (T c rest : cstring) :
  Identifier T -> Identifier c ->
  GetTableName
    (str "create table" ++ spaces n ++ T ++ "("%char :: c ++
     chr_space :: rest)
  = Returned (T ++ "("%char :: c).
Proof.
  intros IT Ic.
  rewrite (GetTableName_token_of_rest _ 0)
    by (apply find_prefix, prefixb_app).
  change (skipn (0 + 12)
            (str "create table" ++ spaces n ++ T ++ "("%char :: c ++
             chr_space :: rest))
    with (spaces n ++ T ++ "("%char :: c ++ chr_space :: rest).
  rewrite trim_left_spaces.
  - change (T ++ "("%char :: c ++ chr_space :: rest)
      with (T ++ ("("%char :: c) ++ chr_space :: rest).
    rewrite app_assoc, first_token_app; [reflexivity|].
    apply Forall_app. split; [now apply Identifier_NoSpace|].
    constructor; [reflexivity|now apply Identifier_NoSpace].
  - destruct IT as [|a T A _]; [reflexivity|].
    now apply word_no_space.
Qed.

(** X5.  When the table name is followed directly by its column list,
    as in "create table T(c ...", the extracted name is "T(c", the
    pattern built from it has an unclosed parenthesis, and the
    Recursive Dependency rule does not return: constructing the
    pattern throws [std::regex_error].  This holds for all identifiers
    [T] and [c], any number of spaces before [T] and any text after the
    space that follows [c]. *)
Theorem unspaced_column_list_throws (state : Configuration) (n : nat)
  (T c rest : cstring) :
  Identifier T -> Identifier c ->
  GetTableName
    (str "create table" ++ spaces n ++ T ++ "("%char :: c ++
     chr_space :: rest)
  = Returned (T ++ "("%char :: c) /\
  CheckRecursiveDependency state
    (str "create table" ++ spaces n ++ T ++ "("%char :: c ++
     chr_space :: rest)
  = RegexError.
Proof.
  intros IT Ic.
  pose proof (unspaced_table_name n T c rest IT Ic) as G.
  split; [exact G|].
  unfold CheckRecursiveDependency. rewrite G. cbn [bind].
  destruct (T ++ "("%char :: c) as [|a l] eqn:E.
  - symmetry in E. now apply app_cons_not_nil in E.
  - rewrite <- E.
    rewrite recursive_dependency_pattern_unbalanced
      by (now apply Identifier_Plain).
    reflexivity.
Qed.

Lemma unspaced_column_list_throws_witness :
  Identifier (str "Users") /\ Identifier (str "id") /\
  CheckRecursiveDependency all_enabled
    (str "create table Users(id int, name varchar(50))") = RegexError.
Proof.
  assert (IT : Identifier (str "Users")) by (repeat constructor).
  assert (Ic : Identifier (str "id")) by (repeat constructor).
  split; [exact IT|]. split; [exact Ic|].
  exact (proj2 (unspaced_column_list_throws all_enabled 1 (str "Users")
                  (str "id") (str "int, name varchar(50))") IT Ic)).
Defined.
